(** * Hampel filter: a shallow embedding of [hampel_filter.py]

    The file embeds the three functions of [hampel_filter.py]
    ([median_absolute_deviation], [estimated_standard_deviation] and
    [hampel_filter]) together with the three numpy routines they call
    ([np.median], [np.pad] in mode "median" and [sliding_window_view]).

    Numbers.  The program is embedded three times, once per number type.
    - Module [F64] is the program on float64 arrays, the arrays it is written
      for: its arithmetic is IEEE binary64, bit for bit, with rounding,
      infinities and nan.
    - Module [I64] is the program on an array of integers, where numpy rounds
      the pad values and truncates the stored medians.
    - The definitions outside these modules compute with exact rationals
      ([Q]), the one nan that real input can produce, the median of an empty
      slice, being [None].  They carry the properties that rest on the
      structure of the program and on the order of the values, which
      rounding does not disturb; what depends on rounding is stated on
      [F64].
    A [RuntimeWarning] does not change the control flow and is not
    recorded.

    Errors.  A Python exception is a value of [exn]; a call that can raise
    returns a [result]. *)

From Stdlib Require Import ZArith QArith Qabs Lia Lqa Sorted Permutation.
From Stdlib Require Import Qround Floats.
From stdpp Require Import base list strings.

(** ** Exceptions *)

Inductive exn : Type :=
| ValueError (msg : string).
Arguments ValueError msg%_string.

Inductive result (A : Type) : Type :=
| Ok (v : A)
| Raise (e : exn).
Arguments Ok {A} v.
Arguments Raise {A} e.

#[global] Instance result_ret : MRet result := fun _ v => Ok v.
#[global] Instance result_bind : MBind result := fun _ _ k r =>
  match r with
  | Ok v => k v
  | Raise e => Raise e
  end.

(** ** numpy primitives *)

Module Np.

(** [x > y] on reals. *)
Definition gt (x y : Q) : bool := negb (Qle_bool x y).

(** Ascending rearrangement.  [np.median] partitions rather than sorts, but
    only reads the middle position(s), which hold the same values as in the
    sorted array. *)
Fixpoint insert (x : Q) (l : list Q) : list Q :=
  match l with
  | [] => [x]
  | y :: l' => if Qle_bool x y then x :: y :: l' else y :: insert x l'
  end.

Fixpoint sort (l : list Q) : list Q :=
  match l with
  | [] => []
  | x :: l' => insert x (sort l')
  end.

(** [np.median(a)] of a one-dimensional array: the mean of the slice
    [part[index:index+1]] (odd size; the mean of one value is that value)
    or [part[index-1:index+1]] (even size), with [index = size // 2].
    The median of an empty array is nan. *)
Definition median (a : list Q) : option Q :=
  let part := sort a in
  let index := (length part / 2)%nat in
  if (length part =? 0)%nat then None
  else if (length part mod 2 =? 1)%nat then part !! index
  else
    match part !! (index - 1)%nat, part !! index with
    | Some lo, Some hi => Some ((lo + hi) / 2)%Q
    | _, _ => None
    end.

(** [np.abs(a - m)], elementwise. *)
Definition abs_dev (m : Q) (a : list Q) : list Q :=
  map (fun x => Qabs (x - m)) a.

End Np.

(** ** The program *)

(** [median_absolute_deviation(a)].  On the empty array [np.median(a)] is nan
    and so is the result. *)
Definition median_absolute_deviation (a : list Q) : option Q :=
  match Np.median a with
  | Some m => Np.median (Np.abs_dev m a)
  | None => None
  end.

(** The default of the keyword argument [scale_factor]. *)
Definition default_scale_factor : Q := 14826 # 10000.

(** [estimated_standard_deviation(a, scale_factor=1.4826)]; an omitted
    [scale_factor] is [None]. *)
Definition estimated_standard_deviation (a : list Q) (scale_factor : option Q)
  : option Q :=
  let scale_factor := default default_scale_factor scale_factor in
  match median_absolute_deviation a with
  | Some mad => Some (scale_factor * mad)%Q
  | None => None
  end.


(** ** Padding and windows *)

Module Pad.

(** The block written by [_set_pad_area]: [width] copies of the statistic.
    The statistic is nan only for an empty chunk, that is for a statistic
    length of zero; [hampel_filter] passes the same number as pad width, so
    the block is then empty as well. *)
Definition block (stat : option Q) (width : nat) : list Q :=
  match stat with
  | Some v => replicate width v
  | None => []
  end.

(** [np.pad(array, k, "median", stat_length=k)] on a one-dimensional float
    array, for an integer [k].  In the order of [numpy.pad]: a negative width
    is rejected by [_as_pairs]; an empty axis can only be padded by zero; the
    statistic length is limited to the length of the array
    ([_get_stats]); the left statistic is the median of the first
    [length] values, the right one the median of the last [length]. *)
Definition median (array : list Q) (k : Z) : result (list Q) :=
  if (k <? 0)%Z then
    Raise (ValueError "index can't contain negative values")
  else if (length array =? 0)%nat then
    if (k =? 0)%Z then Ok array
    else Raise (ValueError
      "can't extend empty axis 0 using modes other than 'constant' or 'empty'")
  else
    let width := Z.to_nat k in
    let max_length := length array in
    let stat_length :=
      if (max_length <? Z.to_nat k)%nat then max_length else Z.to_nat k in
    let left_stat := Np.median (take stat_length array) in
    let right_stat := Np.median (drop (max_length - stat_length) array) in
    Ok (block left_stat width ++ array ++ block right_stat width).

End Pad.

(** [sliding_window_view(x, window_shape)] for a one-dimensional [x] and an
    integer [window_shape]: window [j] is [x[j : j + window_shape]]. *)
Definition sliding_window_view (x : list Q) (window_shape : Z)
  : result (list (list Q)) :=
  if (window_shape <? 0)%Z then
    Raise (ValueError "`window_shape` cannot contain negative values")
  else if (Z.of_nat (length x) <? window_shape)%Z then
    Raise (ValueError "window shape cannot be larger than input array shape")
  else
    let w := Z.to_nat window_shape in
    Ok (map (fun j => take w (drop j x)) (seq 0 (length x + 1 - w))).

(** ** The filter *)

(** Lines 58 to 62 of the loop body: the value that is going to be stored at
    the current index, if any. *)
Definition replacement (nsigma sample : Q) (window : list Q) : option Q :=
  match Np.median window, estimated_standard_deviation window None with
  | Some local_median, Some local_standard_deviation =>
      let threshold := (nsigma * local_standard_deviation)%Q in
      if Np.gt (Qabs (sample - local_median)) threshold
      then Some local_median
      else None
  | _, _ => None
  end.

(** One iteration on [(i, (sample, window))]. *)
Definition hampel_step (nsigma : Q) (filtered_samples : list Q)
    (item : nat * (Q * list Q)) : list Q :=
  let '(i, (sample, window)) := item in
  match replacement nsigma sample window with
  | Some local_median => <[i := local_median]> filtered_samples
  | None => filtered_samples
  end.

(** [enumerate(xs)]. *)
Definition enumerate {A : Type} (xs : list A) : list (nat * A) :=
  zip (seq 0 (length xs)) xs.

Definition odd_error : exn := ValueError "Window size must be odd!".

(** [hampel_filter(samples, window_size, nsigma)].  The loop runs on
    [filtered_samples], a copy of [samples]; the index of a store is always
    within the bounds of the copy. *)
Definition hampel_filter (samples : list Q) (window_size : Z) (nsigma : Q)
  : result (list Q) :=
  if (window_size mod 2 =? 0)%Z then Raise odd_error
  else
    padded_samples ← Pad.median samples (window_size / 2)%Z;
    centered_windows ← sliding_window_view padded_samples window_size;
    let filtered_samples := samples in
    Ok (foldl (hampel_step nsigma) filtered_samples
          (enumerate (zip samples centered_windows))).

(** The values of the local variables [padded_samples] and
    [centered_windows] of [hampel_filter]. *)
Definition padded_samples (samples : list Q) (window_size : Z)
  : result (list Q) :=
  Pad.median samples (window_size / 2)%Z.

Definition centered_windows (samples : list Q) (window_size : Z)
  : result (list (list Q)) :=
  padded ← padded_samples samples window_size;
  sliding_window_view padded window_size.

(** The defaults of the keyword arguments of [hampel_filter]. *)
Definition default_window_size : Z := 11.
Definition default_nsigma : Q := 3.

(** The indices at which the loop takes the branch of line 62. *)
Definition replaces (nsigma : Q) (item : nat * (Q * list Q)) : bool :=
  let '(_, (sample, window)) := item in
  match replacement nsigma sample window with
  | Some _ => true
  | None => false
  end.

Definition replaced_indices (samples : list Q) (window_size : Z) (nsigma : Q)
  : result (list nat) :=
  if (window_size mod 2 =? 0)%Z then Raise odd_error
  else
    windows ← centered_windows samples window_size;
    Ok (map fst (List.filter (replaces nsigma)
                   (enumerate (zip samples windows)))).

(** The input of the worked example of the specification. *)
Definition example_samples : list Q := [1; 2; 3; 100; 5; 6; 7]%Q.

(** ** Vocabulary of the specification *)

(** The window of length [window_size] whose centre is position [i] of the
    original sequence: indices [i .. i + window_size - 1] of the padded one. *)
Definition window_at (padded : list Q) (window_size : Z) (i : nat) : list Q :=
  take (Z.to_nat window_size) (drop i padded).

(** [v] is the [k]-th smallest value of [a] (counting from 0): the value at
    position [k] of an ascending rearrangement of [a]. *)
Definition order_statistic (a : list Q) (k : nat) (v : Q) : Prop :=
  exists s, s ≡ₚ a /\ StronglySorted Qle s /\ s !! k = Some v.

(** Rank tests: [x] lies strictly below [v], and [x] lies at or below [v]. *)
Definition below (v : Q) : Q -> bool := fun x => negb (Qle_bool v x).
Definition upto (v : Q) : Q -> bool := fun x => Qle_bool x v.

(** The median convention of the specification. *)
Definition is_median (a : list Q) (m : Q) : Prop :=
  if Nat.odd (length a)
  then exists v, order_statistic a (length a / 2) v /\ (m == v)%Q
  else exists lo hi,
      order_statistic a (length a / 2 - 1) lo /\
      order_statistic a (length a / 2) hi /\
      (m == (lo + hi) / 2)%Q.

(** * The program on float64 arrays

    The definitions above compute with exact rationals; they serve the
    properties that do not depend on rounding.  The module [F64] is the same
    program on IEEE binary64 numbers, the element type of the arrays the
    program receives: every [+], [-], [*], [/], [abs] and comparison below is
    the float64 operation that numpy performs, rounding, overflow to
    infinity and nan included. *)

Module F64.

(** Ascending rearrangement by the float comparison [<=].  It is only read
    where the array holds no nan.  The comparison does not tell [+0.0] from
    [-0.0]: where both occur, the sign of a zero taken from the middle may
    differ from numpy's, its value does not. *)
Fixpoint insert (x : float) (l : list float) : list float :=
  match l with
  | [] => [x]
  | y :: l' => if (x <=? y)%float then x :: y :: l' else y :: insert x l'
  end.

Fixpoint sort (l : list float) : list float :=
  match l with
  | [] => []
  | x :: l' => insert x (sort l')
  end.

Definition has_nan (a : list float) : bool := existsb is_nan a.

(** [np.median(a)] of a one-dimensional float64 array: nan for an empty
    array and for an array that holds a nan ([_median_nancheck]); otherwise
    the mean of the slice [part[index:index+1]] (odd size; the sum of one
    value divided by 1 is that value) or of [part[index-1:index+1]] (even
    size: the float sum of the two values divided by 2), with
    [index = size // 2]. *)
Definition median (a : list float) : float :=
  let part := sort a in
  let index := (length part / 2)%nat in
  if (length part =? 0)%nat then nan
  else if has_nan a then nan
  else if (length part mod 2 =? 1)%nat then default nan (part !! index)
  else
    match part !! (index - 1)%nat, part !! index with
    | Some lo, Some hi => ((lo + hi) / 2)%float
    | _, _ => nan
    end.

(** [np.abs(a - m)], elementwise. *)
Definition abs_dev (m : float) (a : list float) : list float :=
  map (fun x => abs (x - m)%float) a.

(** [median_absolute_deviation(a)]. *)
Definition median_absolute_deviation (a : list float) : float :=
  median (abs_dev (median a) a).

(** The Python literal [1.4826]: the float64 nearest to 1.4826. *)
Definition default_scale_factor : float := 0x1.7b8bac710cb29p+0%float.

(** [estimated_standard_deviation(a, scale_factor=1.4826)]; an omitted
    [scale_factor] is [None]. *)
Definition estimated_standard_deviation
    (a : list float) (scale_factor : option float) : float :=
  let scale_factor := default default_scale_factor scale_factor in
  (scale_factor * median_absolute_deviation a)%float.

(** [np.pad(array, k, "median", stat_length=k)] on a one-dimensional float64
    array.  The pad value of a side is the median of a chunk of
    [min(k, len(array))] values at that side; for [k = 0] it is the nan
    median of an empty chunk, written zero times. *)
Definition pad_median (array : list float) (k : Z) : result (list float) :=
  if (k <? 0)%Z then
    Raise (ValueError "index can't contain negative values")
  else if (length array =? 0)%nat then
    if (k =? 0)%Z then Ok array
    else Raise (ValueError
      "can't extend empty axis 0 using modes other than 'constant' or 'empty'")
  else
    let width := Z.to_nat k in
    let max_length := length array in
    let stat_length :=
      if (max_length <? Z.to_nat k)%nat then max_length else Z.to_nat k in
    let left_stat := median (take stat_length array) in
    let right_stat := median (drop (max_length - stat_length) array) in
    Ok (replicate width left_stat ++ array ++ replicate width right_stat).

(** [sliding_window_view(x, window_shape)] on a one-dimensional array of any
    element type. *)
Definition sliding_window_view {A : Type} (x : list A) (window_shape : Z)
  : result (list (list A)) :=
  if (window_shape <? 0)%Z then
    Raise (ValueError "`window_shape` cannot contain negative values")
  else if (Z.of_nat (length x) <? window_shape)%Z then
    Raise (ValueError "window shape cannot be larger than input array shape")
  else
    let w := Z.to_nat window_shape in
    Ok (map (fun j => take w (drop j x)) (seq 0 (length x + 1 - w))).

(** The test of line 62, [np.abs(sample - local_median) > threshold]. *)
Definition exceeds (nsigma sample : float) (window : list float) : bool :=
  let local_median := median window in
  let local_standard_deviation := estimated_standard_deviation window None in
  let threshold := (nsigma * local_standard_deviation)%float in
  (threshold <? abs (sample - local_median))%float.

(** One iteration on [(i, (sample, window))]. *)
Definition hampel_step (nsigma : float) (filtered_samples : list float)
    (item : nat * (float * list float)) : list float :=
  let '(i, (sample, window)) := item in
  if exceeds nsigma sample window
  then <[i := median window]> filtered_samples
  else filtered_samples.

(** [hampel_filter(samples, window_size, nsigma)] on a float64 array. *)
Definition hampel_filter
    (samples : list float) (window_size : Z) (nsigma : float)
  : result (list float) :=
  if (window_size mod 2 =? 0)%Z then Raise odd_error
  else
    padded_samples ← pad_median samples (window_size / 2)%Z;
    centered_windows ← sliding_window_view padded_samples window_size;
    let filtered_samples := samples in
    Ok (foldl (hampel_step nsigma) filtered_samples
          (enumerate (zip samples centered_windows))).

(** The value of the local variable [padded_samples]. *)
Definition padded_samples (samples : list float) (window_size : Z)
  : result (list float) :=
  pad_median samples (window_size / 2)%Z.

(** The window of length [window_size] centred at position [i] of the
    original sequence: indices [i .. i + window_size - 1] of the padded
    one. *)
Definition window_at {A : Type} (padded : list A) (window_size : Z) (i : nat)
  : list A :=
  take (Z.to_nat window_size) (drop i padded).

(** [x <= y] as a relation. *)
Definition le (x y : float) : Prop := (x <=? y)%float = true.

(** The median convention of the specification on float64 values: the middle
    value of an ascending arrangement, or the float mean of its two middle
    values. *)
Definition is_median (a : list float) (m : float) : Prop :=
  exists s, s ≡ₚ a /\ Sorted le s /\
    if Nat.odd (length a) then s !! (length a / 2)%nat = Some m
    else exists lo hi,
        s !! (length a / 2 - 1)%nat = Some lo /\
        s !! (length a / 2)%nat = Some hi /\
        m = ((lo + hi) / 2)%float.

(** The real number that a finite float64 denotes. *)
Definition to_Q (x : float) : option Q :=
  match Prim2SF x with
  | S754_zero _ => Some 0%Q
  | S754_finite s m e =>
      Some ((if s then -1 else 1) * inject_Z (Z.pos m) * 2 ^ e)%Q
  | S754_infinity _ | S754_nan => None
  end.

(** The input of the worked example as a float64 array. *)
Definition example_samples : list float := [1; 2; 3; 100; 5; 6; 7]%float.

End F64.

(** * The program on int64 arrays

    An array built from integers, such as [np.array([1, 2, 3])], has an
    integer element type.  The program then differs in three places: the
    statistics are computed on the values converted to float64, [np.pad]
    rounds the pad statistic to the nearest integer, ties to even
    ([_round_if_needed]), and a store into the integer copy truncates the
    local median towards zero.  The values are taken to lie in the range in
    which int64 arithmetic does not wrap. *)

Module I64.

(** Conversion of an int64 to float64. *)
Definition to_float (z : Z) : float :=
  if (z <? 0)%Z then (- of_uint63 (Uint63.of_Z (- z)))%float
  else of_uint63 (Uint63.of_Z z).

(** [np.round]: nearest integer, ties to even. *)
Definition round_half_even (q : Q) : Z :=
  let f := Qfloor q in
  match (q - inject_Z f ?= 1 # 2)%Q with
  | Lt => f
  | Gt => (f + 1)%Z
  | Eq => if Z.even f then f else (f + 1)%Z
  end.

(** The cast of a float64 to int64 truncates towards zero; an infinity or a
    nan gives the smallest int64. *)
Definition int_min : Z := (- 2 ^ 63)%Z.

Definition rint (x : float) : Z :=
  match F64.to_Q x with
  | Some q => round_half_even q
  | None => int_min
  end.

Definition to_int (x : float) : Z :=
  match F64.to_Q x with
  | Some q => Z.quot (Qnum q) (Z.pos (Qden q))
  | None => int_min
  end.

(** [np.pad(array, k, "median", stat_length=k)] on an int64 array. *)
Definition pad_median (array : list Z) (k : Z) : result (list Z) :=
  if (k <? 0)%Z then
    Raise (ValueError "index can't contain negative values")
  else if (length array =? 0)%nat then
    if (k =? 0)%Z then Ok array
    else Raise (ValueError
      "can't extend empty axis 0 using modes other than 'constant' or 'empty'")
  else
    let width := Z.to_nat k in
    let max_length := length array in
    let stat_length :=
      if (max_length <? Z.to_nat k)%nat then max_length else Z.to_nat k in
    let left_stat :=
      rint (F64.median (map to_float (take stat_length array))) in
    let right_stat :=
      rint (F64.median
              (map to_float (drop (max_length - stat_length) array))) in
    Ok (replicate width left_stat ++ array ++ replicate width right_stat).

(** One iteration on [(i, (sample, window))]: the statistics of the integer
    window are those of its conversion to float64. *)
Definition hampel_step (nsigma : float) (filtered_samples : list Z)
    (item : nat * (Z * list Z)) : list Z :=
  let '(i, (sample, window)) := item in
  if F64.exceeds nsigma (to_float sample) (map to_float window)
  then <[i := to_int (F64.median (map to_float window))]> filtered_samples
  else filtered_samples.

(** [hampel_filter(samples, window_size, nsigma)] on an int64 array. *)
Definition hampel_filter (samples : list Z) (window_size : Z) (nsigma : float)
  : result (list Z) :=
  if (window_size mod 2 =? 0)%Z then Raise odd_error
  else
    padded_samples ← pad_median samples (window_size / 2)%Z;
    centered_windows ← F64.sliding_window_view padded_samples window_size;
    let filtered_samples := samples in
    Ok (foldl (hampel_step nsigma) filtered_samples
          (enumerate (zip samples centered_windows))).

(** The input of the worked example as written, an array of integers. *)
Definition example_samples : list Z := [1; 2; 3; 100; 5; 6; 7]%Z.

End I64.

(** * Properties *)

(** ** Ascending rearrangement *)

Section Sorting.

Lemma insert_perm x l : Np.insert x l ≡ₚ x :: l.
Proof.
  induction l as [|y l IH]; simpl; [done|].
  destruct (Qle_bool x y); [done|].
  rewrite IH. apply Permutation_swap.
Qed.

Lemma sort_perm l : Np.sort l ≡ₚ l.
Proof.
  induction l as [|x l IH]; simpl; [done|].
  by rewrite insert_perm, IH.
Qed.

Lemma sort_length l : length (Np.sort l) = length l.
Proof. by rewrite (sort_perm l). Qed.

Lemma insert_sorted x l :
  StronglySorted Qle l -> StronglySorted Qle (Np.insert x l).
Proof.
  induction 1 as [|y l Hl IH Hy]; simpl.
  - repeat constructor.
  - destruct (Qle_bool x y) eqn:Hxy.
    + apply Qle_bool_iff in Hxy.
      constructor; [by constructor|].
      constructor; [done|].
      eapply Forall_impl; [exact Hy|].
      intros z Hz. by apply Qle_trans with y.
    + constructor; [done|].
      rewrite (insert_perm x l). constructor; [|done].
      destruct (Qlt_le_dec y x) as [Hlt|Hle]; [by apply Qlt_le_weak|].
      apply Qle_bool_iff in Hle. congruence.
Qed.

Lemma sort_sorted l : StronglySorted Qle (Np.sort l).
Proof.
  induction l as [|x l IH]; simpl; [constructor|by apply insert_sorted].
Qed.

Lemma sort_lookup_elem l k v : Np.sort l !! k = Some v -> v ∈ l.
Proof.
  intros H. rewrite <- (sort_perm l). by eapply list_elem_of_lookup_2.
Qed.

End Sorting.

(** ** The median *)

Section Median.

Lemma median_is_Some a : a <> [] -> is_Some (Np.median a).
Proof.
  intros Ha. unfold Np.median. rewrite sort_length.
  assert (0 < length a)%nat as Hn by (destruct a; [done|simpl; lia]).
  destruct (Nat.eqb_spec (length a) 0) as [|_]; [lia|].
  assert (length a / 2 < length a)%nat as Hi
    by (apply Nat.div_lt; lia).
  destruct (lookup_lt_is_Some_2 (Np.sort a) (length a / 2)) as [hi Hhi];
    [by rewrite sort_length|].
  destruct (lookup_lt_is_Some_2 (Np.sort a) (length a / 2 - 1)) as [lo Hlo];
    [rewrite sort_length; lia|].
  rewrite Hhi, Hlo. destruct (_ =? 1)%nat; eauto.
Qed.

Lemma median_is_None a : Np.median a = None -> a = [].
Proof.
  intros H. destruct a as [|x a]; [done|].
  destruct (median_is_Some (x :: a)) as [m Hm]; [done|congruence].
Qed.

Lemma odd_mod2 n : (n mod 2 =? 1)%nat = Nat.odd n.
Proof.
  destruct (Nat.odd n) eqn:Hn.
  - apply Nat.odd_spec in Hn as [k ->]. apply Nat.eqb_eq.
    replace (2 * k + 1)%nat with (1 + k * 2)%nat by lia.
    by rewrite Nat.Div0.mod_add.
  - apply Nat.eqb_neq. intros Hm.
    assert (Nat.odd n = true) as Ho; [|congruence].
    apply Nat.odd_spec. exists (n / 2)%nat.
    pose proof (Nat.div_mod_eq n 2). lia.
Qed.

(** The median computed by [Np.median] is the median of the specification. *)
Lemma median_spec a m : Np.median a = Some m -> is_median a m.
Proof.
  unfold Np.median, is_median. rewrite sort_length, odd_mod2.
  destruct (Nat.eqb_spec (length a) 0) as [|Hn]; [done|].
  assert (order_stat : forall k v,
             Np.sort a !! k = Some v -> order_statistic a k v).
  { intros k v Hk. exists (Np.sort a).
    split; [apply sort_perm|]. split; [apply sort_sorted|done]. }
  destruct (Nat.odd (length a)).
  - intros Hm. exists m. split; [by apply order_stat|reflexivity].
  - destruct (Np.sort a !! (length a / 2 - 1)%nat) as [lo|] eqn:Hlo; [|done].
    destruct (Np.sort a !! (length a / 2)%nat) as [hi|] eqn:Hhi; [|done].
    intros [= <-]. exists lo, hi.
    split; [by apply order_stat|]. split; [by apply order_stat|reflexivity].
Qed.

End Median.

(** ** Order statistics are determined up to [==]

    The rank argument: the [k]-th value of an ascending arrangement has at
    most [k] values strictly below it and more than [k] values at or below
    it, and both counts only depend on the multiset of values. *)

Section Rank.

Lemma count_perm (f : Q -> bool) (l l' : list Q) :
  l ≡ₚ l' -> length (List.filter f l) = length (List.filter f l').
Proof.
  induction 1 as [|x l l' _ IH|x y l|l l' l'' _ IH1 _ IH2]; simpl.
  - done.
  - destruct (f x); simpl; lia.
  - destruct (f x), (f y); simpl; lia.
  - lia.
Qed.

Lemma filter_length_mono {A : Type} (f g : A -> bool) (l : list A) :
  (forall x, f x = true -> g x = true) ->
  (length (List.filter f l) <= length (List.filter g l))%nat.
Proof.
  intros Hfg. induction l as [|x l IH]; simpl; [done|].
  destruct (f x) eqn:Hf.
  - rewrite (Hfg x Hf). simpl. lia.
  - destruct (g x); simpl; lia.
Qed.

Lemma below_none v l : Forall (Qle v) l -> List.filter (below v) l = [].
Proof.
  induction 1 as [|x l Hx _ IH]; simpl; [done|].
  unfold below at 1. apply Qle_bool_iff in Hx. by rewrite Hx.
Qed.

Lemma sorted_rank s k v :
  StronglySorted Qle s -> s !! k = Some v ->
  (length (List.filter (below v) s) <= k
   < length (List.filter (upto v) s))%nat.
Proof.
  intros Hs. revert k. induction Hs as [|x t Ht IH Hx]; intros k Hk; [done|].
  destruct k as [|k]; simpl in Hk.
  - injection Hk as ->. simpl.
    unfold below at 1, upto at 1.
    assert (Qle_bool v v = true) as -> by (apply Qle_bool_iff, Qle_refl).
    simpl. rewrite below_none by done. simpl. lia.
  - specialize (IH k Hk). simpl.
    assert (x <= v)%Q as Hxv.
    { rewrite Forall_forall in Hx. apply Hx.
      by eapply list_elem_of_lookup_2. }
    unfold upto at 1. apply Qle_bool_iff in Hxv. rewrite Hxv. simpl.
    destruct (below v x); simpl; lia.
Qed.

Lemma order_statistic_rank a k v :
  order_statistic a k v ->
  (length (List.filter (below v) a) <= k
   < length (List.filter (upto v) a))%nat.
Proof.
  intros (s & Hp & Hs & Hk).
  rewrite <- (count_perm (below v) s a Hp), <- (count_perm (upto v) s a Hp).
  by apply sorted_rank.
Qed.

Lemma rank_le a k v v' :
  (k < length (List.filter (upto v) a))%nat ->
  (length (List.filter (below v') a) <= k)%nat ->
  (v' <= v)%Q.
Proof.
  intros Hv Hv'.
  destruct (Qlt_le_dec v v') as [Hlt|Hle]; [|done].
  pose proof (filter_length_mono (upto v) (below v') a) as Hm.
  assert (forall x, upto v x = true -> below v' x = true) as Himp.
  { intros x Hx. apply Qle_bool_iff in Hx. unfold below.
    destruct (Qle_bool v' x) eqn:Hv'x; [|done].
    apply Qle_bool_iff in Hv'x.
    exfalso. apply (Qlt_irrefl v).
    eapply Qlt_le_trans; [exact Hlt|]. by apply Qle_trans with x. }
  specialize (Hm Himp). lia.
Qed.

(** Two [k]-th smallest values of the same sequence are equal numbers. *)
Lemma order_statistic_unique a k v v' :
  order_statistic a k v -> order_statistic a k v' -> (v == v')%Q.
Proof.
  intros Hv%order_statistic_rank Hv'%order_statistic_rank.
  apply Qle_antisym; eapply rank_le; [apply Hv'|apply Hv|apply Hv|apply Hv'].
Qed.

(** The median of the specification is a function of the sequence. *)
Lemma is_median_unique a m m' :
  is_median a m -> is_median a m' -> (m == m')%Q.
Proof.
  unfold is_median. destruct (Nat.odd (length a)).
  - intros (v & Hv & ->) (v' & Hv' & ->).
    by eapply order_statistic_unique.
  - intros (lo & hi & Hlo & Hhi & ->) (lo' & hi' & Hlo' & Hhi' & ->).
    rewrite (order_statistic_unique _ _ _ _ Hlo Hlo').
    by rewrite (order_statistic_unique _ _ _ _ Hhi Hhi').
Qed.

End Rank.

(** ** Padding and windows *)

Section Windows.

Lemma odd_half (window_size : Z) :
  Z.odd window_size = true -> (1 <= window_size)%Z ->
  (0 <= window_size / 2)%Z /\
  Z.to_nat window_size = (2 * Z.to_nat (window_size / 2) + 1)%nat.
Proof.
  intros Hodd Hpos.
  pose proof (Z.div_mod window_size 2) as Hdm.
  rewrite Zmod_odd, Hodd in Hdm.
  assert (0 <= window_size / 2)%Z by (apply Z.div_pos; lia).
  split; [done|lia].
Qed.

Lemma odd_not_even (window_size : Z) :
  Z.odd window_size = true -> (window_size mod 2 =? 0)%Z = false.
Proof. intros H. rewrite Zmod_odd, H. done. Qed.

Lemma block_length stat width :
  (width = 0%nat \/ is_Some stat) -> length (Pad.block stat width) = width.
Proof.
  intros [->|[v ->]]; simpl.
  - by destruct stat.
  - apply length_replicate.
Qed.

Lemma pad_median_nonempty (array : list Q) (k : Z) :
  array <> [] -> (0 <= k)%Z ->
  Pad.median array k =
    Ok (Pad.block (Np.median (take (Z.to_nat k) array)) (Z.to_nat k)
        ++ array
        ++ Pad.block (Np.median (drop (length array - Z.to_nat k) array))
             (Z.to_nat k)).
Proof.
  intros Ha Hk. unfold Pad.median.
  destruct (Z.ltb_spec k 0) as [|_]; [lia|].
  destruct (Nat.eqb_spec (length array) 0) as [H0|_];
    [by destruct array|].
  destruct (Nat.ltb_spec (length array) (Z.to_nat k)) as [Hlt|Hge]; [|done].
  rewrite Nat.sub_diag, drop_0, firstn_all.
  rewrite (take_ge array (Z.to_nat k)) by lia.
  replace (length array - Z.to_nat k)%nat with 0%nat by lia.
  by rewrite drop_0.
Qed.

Lemma take_nonempty (a : list Q) n : a <> [] -> n <> 0%nat -> take n a <> [].
Proof. by destruct a, n. Qed.

Lemma drop_nonempty (a : list Q) n :
  a <> [] -> n <> 0%nat -> drop (length a - n) a <> [].
Proof.
  intros Ha Hn Hd. apply (f_equal length) in Hd.
  rewrite length_drop in Hd. simpl in Hd.
  destruct a; [done|simpl in Hd; lia].
Qed.

(** Both statistics exist as soon as something has to be written. *)
Lemma pad_stats (array : list Q) (n : nat) :
  array <> [] -> n <> 0%nat ->
  is_Some (Np.median (take n array)) /\
  is_Some (Np.median (drop (length array - n) array)).
Proof.
  intros Ha Hn. split; apply median_is_Some.
  - by apply take_nonempty.
  - by apply drop_nonempty.
Qed.

Lemma padded_length samples window_size padded :
  samples <> [] -> Z.odd window_size = true -> (1 <= window_size)%Z ->
  padded_samples samples window_size = Ok padded ->
  length padded = (length samples + Z.to_nat window_size - 1)%nat.
Proof.
  intros Hs Hodd Hpos. unfold padded_samples.
  destruct (odd_half window_size Hodd Hpos) as [Hh Hw].
  rewrite pad_median_nonempty by done. intros [= <-].
  rewrite !length_app, !block_length; [lia| |].
  all: destruct (decide (Z.to_nat (window_size / 2) = 0%nat)) as [|Hne];
    [by left|right; by apply pad_stats].
Qed.

Lemma sliding_window_view_ok (x : list Q) (w : Z) :
  (0 <= w <= Z.of_nat (length x))%Z ->
  sliding_window_view x w =
    Ok (window_at x w <$> seq 0 (length x + 1 - Z.to_nat w)).
Proof.
  intros Hw. unfold sliding_window_view.
  destruct (Z.ltb_spec w 0) as [|_]; [lia|].
  destruct (Z.ltb_spec (Z.of_nat (length x)) w) as [|_]; [lia|done].
Qed.

Lemma centered_windows_ok samples window_size padded :
  samples <> [] -> Z.odd window_size = true -> (1 <= window_size)%Z ->
  padded_samples samples window_size = Ok padded ->
  centered_windows samples window_size =
    Ok (window_at padded window_size <$> seq 0 (length samples)).
Proof.
  intros Hs Hodd Hpos Hp. unfold centered_windows. rewrite Hp. simpl.
  pose proof (padded_length _ _ _ Hs Hodd Hpos Hp) as Hlen.
  assert (0 < length samples)%nat by (destruct samples; [done|simpl; lia]).
  rewrite sliding_window_view_ok by lia.
  do 3 f_equal. lia.
Qed.

Lemma padded_samples_ok samples window_size :
  samples <> [] -> Z.odd window_size = true -> (1 <= window_size)%Z ->
  exists padded, padded_samples samples window_size = Ok padded.
Proof.
  intros Hs Hodd Hpos. destruct (odd_half window_size Hodd Hpos) as [Hh _].
  unfold padded_samples. rewrite pad_median_nonempty by done. eauto.
Qed.

Lemma window_at_length padded window_size i samples :
  samples <> [] -> Z.odd window_size = true -> (1 <= window_size)%Z ->
  padded_samples samples window_size = Ok padded ->
  (i < length samples)%nat ->
  length (window_at padded window_size i) = Z.to_nat window_size.
Proof.
  intros Hs Hodd Hpos Hp Hi.
  pose proof (padded_length _ _ _ Hs Hodd Hpos Hp) as Hlen.
  unfold window_at. rewrite length_take, length_drop. lia.
Qed.

Lemma window_at_nonempty padded window_size i samples :
  samples <> [] -> Z.odd window_size = true -> (1 <= window_size)%Z ->
  padded_samples samples window_size = Ok padded ->
  (i < length samples)%nat ->
  window_at padded window_size i <> [].
Proof.
  intros Hs Hodd Hpos Hp Hi Hnil.
  pose proof (window_at_length _ _ _ _ Hs Hodd Hpos Hp Hi) as Hlen.
  rewrite Hnil in Hlen. simpl in Hlen. lia.
Qed.

(** What the loop iterates over. *)
Lemma items_lookup samples window_size padded i sample :
  samples <> [] -> Z.odd window_size = true -> (1 <= window_size)%Z ->
  padded_samples samples window_size = Ok padded ->
  samples !! i = Some sample ->
  (zip samples (window_at padded window_size <$> seq 0 (length samples))) !! i
  = Some (sample, window_at padded window_size i).
Proof.
  intros Hs Hodd Hpos Hp Hi.
  apply lookup_zip_Some. split; [done|].
  rewrite list_lookup_fmap, lookup_seq_lt; [done|].
  by eapply lookup_lt_Some.
Qed.

End Windows.

(** ** The loop *)

Section Loop.

Variable nsigma : Q.

Lemma hampel_step_length filtered item :
  length (hampel_step nsigma filtered item) = length filtered.
Proof.
  destruct item as [i [sample window]]. simpl.
  destruct (replacement nsigma sample window); [apply length_insert|done].
Qed.

Lemma loop_length items filtered :
  length (foldl (hampel_step nsigma) filtered items) = length filtered.
Proof.
  revert filtered. induction items as [|item items IH]; intros filtered;
    simpl; [done|].
  by rewrite IH, hampel_step_length.
Qed.

(** A store at [j] into a list only depends on the length of the list. *)
Lemma insert_lookup_same_length (l l' : list Q) j v :
  length l = length l' -> <[j := v]> l !! j = <[j := v]> l' !! j.
Proof.
  intros Hlen. destruct (decide (j < length l)%nat) as [Hj|Hj].
  - rewrite !list_lookup_insert_eq by lia. done.
  - rewrite !list_insert_ge by lia.
    rewrite !lookup_ge_None_2 by lia. done.
Qed.

(** After the loop over the items numbered from [k], position [j] holds the
    value stored by item [j - k], if that item stored one, and is otherwise
    as before the loop. *)
Lemma loop_lookup (xs : list (Q * list Q)) (k : nat) (filtered : list Q) j :
  foldl (hampel_step nsigma) filtered (zip (seq k (length xs)) xs) !! j =
    if decide (k <= j)%nat then
      match xs !! (j - k)%nat with
      | Some (sample, window) =>
          match replacement nsigma sample window with
          | Some local_median => <[j := local_median]> filtered !! j
          | None => filtered !! j
          end
      | None => filtered !! j
      end
    else filtered !! j.
Proof.
  revert k filtered. induction xs as [|[sample window] xs IH];
    intros k filtered; simpl.
  - by destruct (decide _).
  - rewrite IH. clear IH.
    set (filtered' := match replacement nsigma sample window with
                      | Some local_median => <[k := local_median]> filtered
                      | None => filtered
                      end).
    assert (length filtered' = length filtered) as Hlen.
    { unfold filtered'. destruct (replacement _ _ _);
        [apply length_insert|done]. }
    assert (forall i, i <> k -> filtered' !! i = filtered !! i) as Hne.
    { intros i Hi. unfold filtered'. destruct (replacement _ _ _); [|done].
      by rewrite list_lookup_insert_ne. }
    destruct (decide (S k <= j)%nat) as [Hj|Hj].
    + rewrite decide_True by lia.
      replace (j - k)%nat with (S (j - S k)) by lia. simpl.
      destruct (xs !! (j - S k)%nat) as [[s w]|]; [|apply Hne; lia].
      destruct (replacement nsigma s w); [|apply Hne; lia].
      by apply insert_lookup_same_length.
    + destruct (decide (k <= j)%nat) as [Hk|Hk]; [|apply Hne; lia].
      assert (j = k) as -> by lia. rewrite Nat.sub_diag. simpl.
      unfold filtered'. by destruct (replacement _ _ _).
Qed.

(** The loop of [hampel_filter] run on the original samples. *)
Lemma filter_loop_lookup (samples : list Q) (windows : list (list Q))
    i sample window :
  samples !! i = Some sample -> windows !! i = Some window ->
  foldl (hampel_step nsigma) samples (enumerate (zip samples windows)) !! i
  = Some (default sample (replacement nsigma sample window)).
Proof.
  intros Hs Hw. unfold enumerate. rewrite loop_lookup.
  rewrite decide_True by lia. rewrite Nat.sub_0_r.
  assert (zip samples windows !! i = Some (sample, window)) as ->
    by (by apply lookup_zip_Some).
  destruct (replacement nsigma sample window); simpl; [|done].
  apply list_lookup_insert_eq. by eapply lookup_lt_Some.
Qed.

End Loop.

(** ** Statistics of a non-empty window *)

Section Statistics.

Lemma abs_dev_nonempty m a : a <> [] -> Np.abs_dev m a <> [].
Proof. by destruct a. Qed.

Lemma mad_is_Some a : a <> [] -> is_Some (median_absolute_deviation a).
Proof.
  intros Ha. unfold median_absolute_deviation.
  destruct (median_is_Some a Ha) as [m ->].
  by apply median_is_Some, abs_dev_nonempty.
Qed.

Lemma esd_is_Some a scale :
  a <> [] -> is_Some (estimated_standard_deviation a scale).
Proof.
  intros Ha. unfold estimated_standard_deviation.
  destruct (mad_is_Some a Ha) as [mad ->]. eauto.
Qed.

(** The median of values that are all at least [0] is at least [0]. *)
Lemma median_nonneg a m :
  Forall (Qle 0) a -> Np.median a = Some m -> (0 <= m)%Q.
Proof.
  intros Ha. unfold Np.median.
  assert (forall k v, Np.sort a !! k = Some v -> (0 <= v)%Q) as Hk.
  { intros k v Hv%sort_lookup_elem. rewrite Forall_forall in Ha. auto. }
  destruct (_ =? 0)%nat; [done|].
  destruct (_ =? 1)%nat; [by apply Hk|].
  destruct (Np.sort a !! _) as [lo|] eqn:Hlo; [|done].
  destruct (Np.sort a !! (_ / 2)%nat) as [hi|] eqn:Hhi; [|done].
  intros [= <-]. apply Hk in Hlo, Hhi.
  apply Qle_shift_div_l; [reflexivity|].
  rewrite Qmult_0_l. rewrite <- (Qplus_0_r 0).
  by apply Qplus_le_compat.
Qed.

Lemma mad_nonneg a mad : median_absolute_deviation a = Some mad -> (0 <= mad)%Q.
Proof.
  unfold median_absolute_deviation. destruct (Np.median a) as [m|]; [|done].
  apply median_nonneg. unfold Np.abs_dev.
  apply Forall_forall. intros x (y & -> & _)%list_elem_of_fmap.
  apply Qabs_nonneg.
Qed.

Lemma esd_default_nonneg a sd :
  estimated_standard_deviation a None = Some sd -> (0 <= sd)%Q.
Proof.
  unfold estimated_standard_deviation.
  destruct (median_absolute_deviation a) as [mad|] eqn:Hmad; [|done].
  intros [= <-]. apply Qmult_le_0_compat; [done|by eapply mad_nonneg].
Qed.

Lemma gt_spec x y : Np.gt x y = true <-> (y < x)%Q.
Proof.
  unfold Np.gt. rewrite negb_true_iff.
  destruct (Qle_bool x y) eqn:H.
  - apply Qle_bool_iff in H. split; [done|].
    intros Hlt. exfalso. by apply (Qlt_not_le y x).
  - split; [|done]. intros _.
    destruct (Qlt_le_dec y x) as [|Hle]; [done|].
    apply Qle_bool_iff in Hle. congruence.
Qed.

Lemma gt_false x y : Np.gt x y = false <-> (x <= y)%Q.
Proof.
  unfold Np.gt. rewrite negb_false_iff. apply Qle_bool_iff.
Qed.

End Statistics.

(** ** The filter on valid input *)

Section Filter.

Lemma nonempty_of_length (samples : list Q) :
  (1 <= length samples)%nat -> samples <> [].
Proof. destruct samples; simpl; [lia|done]. Qed.

Lemma hampel_filter_ok samples window_size nsigma padded :
  samples <> [] -> Z.odd window_size = true -> (1 <= window_size)%Z ->
  padded_samples samples window_size = Ok padded ->
  hampel_filter samples window_size nsigma =
    Ok (foldl (hampel_step nsigma) samples
          (enumerate (zip samples
             (window_at padded window_size <$> seq 0 (length samples))))).
Proof.
  intros Hs Hodd Hpos Hp. unfold hampel_filter.
  rewrite (odd_not_even _ Hodd).
  pose proof (centered_windows_ok _ _ _ Hs Hodd Hpos Hp) as Hw.
  unfold centered_windows in Hw. rewrite Hp in Hw. simpl in Hw.
  unfold padded_samples in Hp. rewrite Hp. simpl. by rewrite Hw.
Qed.

Lemma replacement_unfold nsigma sample window local_median local_std_dev :
  Np.median window = Some local_median ->
  estimated_standard_deviation window None = Some local_std_dev ->
  replacement nsigma sample window =
    if Np.gt (Qabs (sample - local_median)) (nsigma * local_std_dev)
    then Some local_median else None.
Proof. intros Hm Hsd. unfold replacement. by rewrite Hm, Hsd. Qed.

(** The output at position [i] in terms of the window of position [i]. *)
Lemma hampel_filter_lookup samples window_size nsigma padded out i sample :
  samples <> [] -> Z.odd window_size = true -> (1 <= window_size)%Z ->
  padded_samples samples window_size = Ok padded ->
  hampel_filter samples window_size nsigma = Ok out ->
  samples !! i = Some sample ->
  out !! i = Some (default sample
    (replacement nsigma sample (window_at padded window_size i))).
Proof.
  intros Hs Hodd Hpos Hp Hout Hi.
  rewrite (hampel_filter_ok _ _ _ _ Hs Hodd Hpos Hp) in Hout.
  injection Hout as <-.
  apply filter_loop_lookup; [done|].
  rewrite list_lookup_fmap, lookup_seq_lt; [done|].
  by eapply lookup_lt_Some.
Qed.

(** A sequence none of whose samples is replaced comes back unchanged. *)
Lemma hampel_filter_clean samples window_size nsigma padded :
  samples <> [] -> Z.odd window_size = true -> (1 <= window_size)%Z ->
  padded_samples samples window_size = Ok padded ->
  (forall i sample, samples !! i = Some sample ->
     replacement nsigma sample (window_at padded window_size i) = None) ->
  hampel_filter samples window_size nsigma = Ok samples.
Proof.
  intros Hs Hodd Hpos Hp Hclean.
  rewrite (hampel_filter_ok _ _ _ _ Hs Hodd Hpos Hp). f_equal.
  apply list_eq. intros i.
  destruct (samples !! i) as [sample|] eqn:Hi.
  - rewrite (filter_loop_lookup nsigma samples _ i sample
               (window_at padded window_size i)); [|done|].
    + by rewrite (Hclean i sample Hi).
    + rewrite list_lookup_fmap, lookup_seq_lt; [done|].
      by eapply lookup_lt_Some.
  - apply lookup_ge_None. rewrite loop_length. by apply lookup_ge_None.
Qed.

(** A window of size one holds the sample alone and never replaces it. *)
Lemma window_at_one (samples : list Q) i sample :
  samples !! i = Some sample -> window_at samples 1 i = [sample].
Proof.
  intros Hi. unfold window_at. by rewrite (drop_S _ _ _ Hi).
Qed.

Lemma replacement_singleton nsigma sample :
  replacement nsigma sample [sample] = None.
Proof.
  rewrite (replacement_unfold nsigma sample [sample] sample
             (default_scale_factor * Qabs (sample - sample))%Q);
    [|reflexivity..].
  assert (Np.gt (Qabs (sample - sample))
            (nsigma * (default_scale_factor * Qabs (sample - sample)))
          = false) as ->; [|done].
  apply gt_false.
  assert (Qabs (sample - sample) == 0)%Q as ->.
  { assert (sample - sample == 0)%Q as -> by ring. reflexivity. }
  rewrite Qmult_0_r, Qmult_0_r. apply Qle_refl.
Qed.

Lemma padded_samples_one samples :
  samples <> [] -> padded_samples samples 1 = Ok samples.
Proof.
  intros Hs. unfold padded_samples.
  rewrite pad_median_nonempty by done. simpl.
  destruct (Np.median []), (Np.median (drop _ samples));
    simpl; by rewrite ?app_nil_r.
Qed.



Lemma replaced_indices_ok samples window_size nsigma padded :
  samples <> [] -> Z.odd window_size = true -> (1 <= window_size)%Z ->
  padded_samples samples window_size = Ok padded ->
  replaced_indices samples window_size nsigma =
    Ok (map fst (List.filter (replaces nsigma)
          (enumerate (zip samples
             (window_at padded window_size <$> seq 0 (length samples)))))).
Proof.
  intros Hs Hodd Hpos Hp. unfold replaced_indices.
  rewrite (odd_not_even _ Hodd).
  by rewrite (centered_windows_ok _ _ _ Hs Hodd Hpos Hp).
Qed.

(** The recorded indices are those whose sample the loop replaces. *)
Lemma replaced_indices_elem samples window_size nsigma padded replaced i :
  samples <> [] -> Z.odd window_size = true -> (1 <= window_size)%Z ->
  padded_samples samples window_size = Ok padded ->
  replaced_indices samples window_size nsigma = Ok replaced ->
  i ∈ replaced <->
  exists sample,
    samples !! i = Some sample /\
    is_Some (replacement nsigma sample (window_at padded window_size i)).
Proof.
  intros Hs Hodd Hpos Hp Hr.
  rewrite (replaced_indices_ok _ _ _ _ Hs Hodd Hpos Hp) in Hr.
  injection Hr as <-. unfold enumerate.
  set (items := zip samples _).
  assert (forall j item, items !! j = Some item <->
            exists sample, samples !! j = Some sample /\
              item = (sample, window_at padded window_size j)) as Hitems.
  { intros j [sample window]. unfold items. rewrite lookup_zip_Some.
    rewrite list_lookup_fmap. split.
    - intros [Hj Hw]. exists sample. split; [done|].
      rewrite lookup_seq_lt in Hw by (by eapply lookup_lt_Some).
      simpl in Hw. congruence.
    - intros (sample' & Hj & [= -> ->]). split; [done|].
      by rewrite lookup_seq_lt by (by eapply lookup_lt_Some). }
  rewrite list_elem_of_fmap. split.
  - intros ([j [sample window]] & -> & Hin). simpl.
    apply list_elem_of_In, filter_In in Hin as [Hin Hf].
    apply list_elem_of_In, list_elem_of_lookup in Hin as [k Hk].
    apply lookup_zip_Some in Hk as [Hseq Hitem].
    apply lookup_seq in Hseq as [-> _]. simpl.
    apply Hitems in Hitem as (sample' & Hj & [= -> ->]).
    exists sample'. split; [done|].
    unfold replaces in Hf. by destruct (replacement _ _ _).
  - intros (sample & Hi & [m Hm]).
    exists (i, (sample, window_at padded window_size i)). split; [done|].
    apply list_elem_of_In, filter_In. split.
    + apply list_elem_of_In, list_elem_of_lookup. exists i.
      apply lookup_zip_Some. split.
      * apply lookup_seq. split; [done|].
        apply lookup_lt_is_Some. exists (sample, window_at padded window_size i).
        apply Hitems. eauto.
      * apply Hitems. eauto.
    + unfold replaces. by rewrite Hm.
Qed.



End Filter.

(** * The float64 program *)

(** ** The float comparison *)

Section FloatOrder.

Lemma SFcompare_antisym x y :
  SFcompare y x = option_map CompOpp (SFcompare x y).
Proof.
  destruct x as [sx|sx| |sx mx ex], y as [sy|sy| |sy my ey]; simpl;
    try reflexivity;
    repeat match goal with s : bool |- _ => destruct s end;
    try reflexivity.
  - rewrite (Z.compare_antisym ex ey).
    destruct (ex ?= ey)%Z; simpl; try reflexivity.
    by rewrite Pos.compare_cont_antisym, CompOpp_involutive.
  - rewrite (Z.compare_antisym ex ey).
    destruct (ex ?= ey)%Z; simpl; try reflexivity.
    by rewrite Pos.compare_cont_antisym.
Qed.

Lemma not_nan_spec x : is_nan x = false -> Prim2SF x <> S754_nan.
Proof.
  unfold is_nan. rewrite FloatAxioms.eqb_spec. intros H Hn.
  rewrite Hn in H. discriminate H.
Qed.

(** Two numbers are always comparable. *)
Lemma leb_total x y :
  is_nan x = false -> is_nan y = false ->
  (x <=? y)%float = false -> (y <=? x)%float = true.
Proof.
  intros Hx%not_nan_spec Hy%not_nan_spec. rewrite !FloatAxioms.leb_spec.
  unfold SFleb. rewrite (SFcompare_antisym (Prim2SF x) (Prim2SF y)).
  destruct (SFcompare (Prim2SF x) (Prim2SF y)) as [[]|] eqn:Hc; simpl;
    try done.
  exfalso. destruct (Prim2SF x), (Prim2SF y); simpl in Hc; try done.
Qed.

(** Equal values are not strictly ordered. *)
Lemma eqb_not_ltb x y : (x =? y)%float = true -> (y <? x)%float = false.
Proof.
  rewrite FloatAxioms.eqb_spec, FloatAxioms.ltb_spec. unfold SFeqb, SFltb.
  rewrite (SFcompare_antisym (Prim2SF x) (Prim2SF y)).
  by destruct (SFcompare (Prim2SF x) (Prim2SF y)) as [[]|].
Qed.

End FloatOrder.

(** ** The float median *)

Section FloatMedian.

Lemma f64_insert_perm x l : F64.insert x l ≡ₚ x :: l.
Proof.
  induction l as [|y l IH]; simpl; [done|].
  destruct (x <=? y)%float; [done|].
  rewrite IH. apply Permutation_swap.
Qed.

Lemma f64_sort_perm l : F64.sort l ≡ₚ l.
Proof.
  induction l as [|x l IH]; simpl; [done|].
  by rewrite f64_insert_perm, IH.
Qed.

Lemma f64_sort_length l : length (F64.sort l) = length l.
Proof. by rewrite (f64_sort_perm l). Qed.

Lemma has_nan_false a :
  F64.has_nan a = false <-> Forall (fun x => is_nan x = false) a.
Proof.
  unfold F64.has_nan. induction a as [|x a IH]; simpl.
  - split; [constructor|done].
  - rewrite orb_false_iff, IH, Forall_cons. done.
Qed.

Lemma f64_insert_sorted x l :
  is_nan x = false -> Forall (fun y => is_nan y = false) l ->
  Sorted F64.le l -> Sorted F64.le (F64.insert x l).
Proof.
  intros Hx Hl Hs. induction Hs as [|y l Hs IH Hy]; simpl.
  - repeat constructor.
  - apply Forall_cons in Hl as [Hny Hl].
    destruct (x <=? y)%float eqn:Hxy.
    + constructor; [by constructor|]. by constructor.
    + constructor; [by apply IH|].
      destruct l as [|z l]; simpl.
      * constructor. by apply leb_total.
      * destruct (x <=? z)%float.
        -- constructor. by apply leb_total.
        -- constructor. by inversion Hy.
Qed.

Lemma f64_sort_sorted l :
  Forall (fun y => is_nan y = false) l -> Sorted F64.le (F64.sort l).
Proof.
  induction 1 as [|x l Hx Hl IH]; simpl; [constructor|].
  apply f64_insert_sorted; [done| |done].
  by rewrite (f64_sort_perm l).
Qed.

(** On a non-empty array without nan, [np.median] is the median of the
    specification. *)
Lemma f64_median_spec a :
  a <> [] -> F64.has_nan a = false -> F64.is_median a (F64.median a).
Proof.
  intros Ha Hnan. unfold F64.median, F64.is_median.
  rewrite f64_sort_length, Hnan, odd_mod2.
  assert (0 < length a)%nat as Hn by (destruct a; [done|simpl; lia]).
  destruct (Nat.eqb_spec (length a) 0) as [|_]; [lia|].
  exists (F64.sort a). split; [apply f64_sort_perm|].
  split; [by apply f64_sort_sorted, has_nan_false|].
  assert (length a / 2 < length a)%nat as Hi by (apply Nat.div_lt; lia).
  destruct (lookup_lt_is_Some_2 (F64.sort a) (length a / 2)) as [hi Hhi];
    [by rewrite f64_sort_length|].
  destruct (lookup_lt_is_Some_2 (F64.sort a) (length a / 2 - 1))
    as [lo Hlo]; [rewrite f64_sort_length; lia|].
  rewrite Hhi, Hlo. destruct (Nat.odd (length a)); [done|].
  exists lo, hi. done.
Qed.

End FloatMedian.

(** ** Padding, windows and the loop on float64 arrays *)

Section FloatFilter.

Lemma f64_pad_median_nonempty (array : list float) (k : Z) :
  array <> [] -> (0 <= k)%Z ->
  F64.pad_median array k =
    Ok (replicate (Z.to_nat k) (F64.median (take (Z.to_nat k) array))
        ++ array
        ++ replicate (Z.to_nat k)
             (F64.median (drop (length array - Z.to_nat k) array))).
Proof.
  intros Ha Hk. unfold F64.pad_median.
  destruct (Z.ltb_spec k 0) as [|_]; [lia|].
  destruct (Nat.eqb_spec (length array) 0) as [H0|_];
    [by destruct array|].
  destruct (Nat.ltb_spec (length array) (Z.to_nat k)) as [Hlt|Hge]; [|done].
  rewrite Nat.sub_diag, drop_0, firstn_all.
  rewrite (take_ge array (Z.to_nat k)) by lia.
  replace (length array - Z.to_nat k)%nat with 0%nat by lia.
  by rewrite drop_0.
Qed.

Lemma f64_sliding_window_view_ok {A : Type} (x : list A) (w : Z) :
  (0 <= w <= Z.of_nat (length x))%Z ->
  F64.sliding_window_view x w =
    Ok (F64.window_at x w <$> seq 0 (length x + 1 - Z.to_nat w)).
Proof.
  intros Hw. unfold F64.sliding_window_view.
  destruct (Z.ltb_spec w 0) as [|_]; [lia|].
  destruct (Z.ltb_spec (Z.of_nat (length x)) w) as [|_]; [lia|done].
Qed.

Lemma f64_padded_samples_ok samples window_size :
  samples <> [] -> Z.odd window_size = true -> (1 <= window_size)%Z ->
  let half := Z.to_nat (window_size / 2) in
  F64.padded_samples samples window_size =
    Ok (replicate half (F64.median (take half samples))
        ++ samples
        ++ replicate half
             (F64.median (drop (length samples - half) samples))).
Proof.
  intros Hs Hodd Hpos half.
  destruct (odd_half window_size Hodd Hpos) as [Hh _].
  unfold F64.padded_samples. by rewrite f64_pad_median_nonempty.
Qed.

Lemma f64_padded_length samples window_size padded :
  samples <> [] -> Z.odd window_size = true -> (1 <= window_size)%Z ->
  F64.padded_samples samples window_size = Ok padded ->
  length padded = (length samples + Z.to_nat window_size - 1)%nat.
Proof.
  intros Hs Hodd Hpos.
  destruct (odd_half window_size Hodd Hpos) as [Hh Hw].
  rewrite f64_padded_samples_ok by done. intros [= <-].
  rewrite !length_app, !length_replicate. lia.
Qed.

Lemma f64_window_at_length samples window_size padded i :
  samples <> [] -> Z.odd window_size = true -> (1 <= window_size)%Z ->
  F64.padded_samples samples window_size = Ok padded ->
  (i < length samples)%nat ->
  length (F64.window_at padded window_size i) = Z.to_nat window_size.
Proof.
  intros Hs Hodd Hpos Hp Hi.
  pose proof (f64_padded_length _ _ _ Hs Hodd Hpos Hp) as Hlen.
  unfold F64.window_at. rewrite length_take, length_drop. lia.
Qed.

Lemma f64_step_length nsigma filtered item :
  length (F64.hampel_step nsigma filtered item) = length filtered.
Proof.
  destruct item as [i [sample window]]. simpl.
  destruct (F64.exceeds nsigma sample window); [apply length_insert|done].
Qed.

Lemma f64_loop_length nsigma items filtered :
  length (foldl (F64.hampel_step nsigma) filtered items) = length filtered.
Proof.
  revert filtered. induction items as [|item items IH]; intros filtered;
    simpl; [done|].
  by rewrite IH, f64_step_length.
Qed.

Lemma f64_insert_lookup_same_length (l l' : list float) j v :
  length l = length l' -> <[j := v]> l !! j = <[j := v]> l' !! j.
Proof.
  intros Hlen. destruct (decide (j < length l)%nat) as [Hj|Hj].
  - rewrite !list_lookup_insert_eq by lia. done.
  - rewrite !list_insert_ge by lia.
    rewrite !lookup_ge_None_2 by lia. done.
Qed.

(** After the loop over the items numbered from [k], position [j] holds the
    median of the window of item [j - k] if the test of that item
    succeeded, and is otherwise as before the loop. *)
Lemma f64_loop_lookup nsigma (xs : list (float * list float)) (k : nat)
    (filtered : list float) j :
  foldl (F64.hampel_step nsigma) filtered (zip (seq k (length xs)) xs) !! j =
    if decide (k <= j)%nat then
      match xs !! (j - k)%nat with
      | Some (sample, window) =>
          if F64.exceeds nsigma sample window
          then <[j := F64.median window]> filtered !! j
          else filtered !! j
      | None => filtered !! j
      end
    else filtered !! j.
Proof.
  revert k filtered. induction xs as [|[sample window] xs IH];
    intros k filtered; simpl.
  - by destruct (decide _).
  - rewrite IH. clear IH.
    set (filtered' := if F64.exceeds nsigma sample window
                      then <[k := F64.median window]> filtered
                      else filtered).
    assert (length filtered' = length filtered) as Hlen.
    { unfold filtered'. destruct (F64.exceeds _ _ _);
        [apply length_insert|done]. }
    assert (forall i, i <> k -> filtered' !! i = filtered !! i) as Hne.
    { intros i Hi. unfold filtered'. destruct (F64.exceeds _ _ _); [|done].
      by rewrite list_lookup_insert_ne. }
    destruct (decide (S k <= j)%nat) as [Hj|Hj].
    + rewrite decide_True by lia.
      replace (j - k)%nat with (S (j - S k)) by lia. simpl.
      destruct (xs !! (j - S k)%nat) as [[s w]|]; [|apply Hne; lia].
      destruct (F64.exceeds nsigma s w); [|apply Hne; lia].
      by apply f64_insert_lookup_same_length.
    + destruct (decide (k <= j)%nat) as [Hk|Hk]; [|apply Hne; lia].
      assert (j = k) as -> by lia. rewrite Nat.sub_diag. simpl.
      unfold filtered'. by destruct (F64.exceeds _ _ _).
Qed.

Lemma f64_hampel_filter_ok samples window_size nsigma padded :
  samples <> [] -> Z.odd window_size = true -> (1 <= window_size)%Z ->
  F64.padded_samples samples window_size = Ok padded ->
  F64.hampel_filter samples window_size nsigma =
    Ok (foldl (F64.hampel_step nsigma) samples
          (enumerate (zip samples
             (F64.window_at padded window_size
                <$> seq 0 (length samples))))).
Proof.
  intros Hs Hodd Hpos Hp. unfold F64.hampel_filter.
  rewrite (odd_not_even _ Hodd).
  pose proof (f64_padded_length _ _ _ Hs Hodd Hpos Hp) as Hlen.
  unfold F64.padded_samples in Hp. rewrite Hp. simpl.
  assert (0 < length samples)%nat by (destruct samples; [done|simpl; lia]).
  rewrite f64_sliding_window_view_ok by lia. simpl.
  replace (length padded + 1 - Z.to_nat window_size)%nat
    with (length samples) by lia.
  done.
Qed.

(** The output at position [i] in terms of the window of position [i]. *)
Lemma f64_hampel_filter_lookup samples window_size nsigma padded out i sample :
  samples <> [] -> Z.odd window_size = true -> (1 <= window_size)%Z ->
  F64.padded_samples samples window_size = Ok padded ->
  F64.hampel_filter samples window_size nsigma = Ok out ->
  samples !! i = Some sample ->
  out !! i =
    Some (if F64.exceeds nsigma sample (F64.window_at padded window_size i)
          then F64.median (F64.window_at padded window_size i)
          else sample).
Proof.
  intros Hs Hodd Hpos Hp Hout Hi.
  rewrite (f64_hampel_filter_ok _ _ _ _ Hs Hodd Hpos Hp) in Hout.
  injection Hout as <-. unfold enumerate. rewrite f64_loop_lookup.
  rewrite decide_True by lia. rewrite Nat.sub_0_r.
  assert (i < length samples)%nat as Hlt by (by eapply lookup_lt_Some).
  assert (zip samples (F64.window_at padded window_size
                         <$> seq 0 (length samples)) !! i
          = Some (sample, F64.window_at padded window_size i)) as ->.
  { apply lookup_zip_Some. split; [done|].
    by rewrite list_lookup_fmap, lookup_seq_lt. }
  destruct (F64.exceeds _ _ _); [|done].
  by apply list_lookup_insert_eq.
Qed.

End FloatFilter.

(** ** Where float64 and exact arithmetic part

    The same data in the program and in exact arithmetic: a rounded
    threshold, a rounded deviation, a mean that overflows and a rounded
    product. *)

Section Rounding.

(** The distance 51891 equals [5 * 1.4826 * 7000] exactly; the float64
    threshold is rounded below it and the sample is replaced. *)
Remark f64_threshold_rounding :
  F64.hampel_filter [-7000; -7000; 51891; 0; 0]%float 3 5
    = Ok [-7000; -7000; 0; 0; 0]%float /\
  hampel_filter [-7000; -7000; 51891; 0; 0]%Q 3 5
    = Ok [-7000; -7000; 51891; 0; 0]%Q /\
  (Qabs (51891 - 0) == 5 * ((14826 # 10000) * 7000))%Q.
Proof. split; [|split]; vm_compute; reflexivity. Qed.

(** The deviation [|-1 - 2^53|] is rounded to [2^53]. *)
Remark f64_deviation_rounding :
  F64.median_absolute_deviation [-1; 0x1p+53; 0x1p+55]%float = 0x1p+53%float /\
  median_absolute_deviation
    [-1; 9007199254740992; 36028797018963968]%Q
  = Some 9007199254740993%Q.
Proof. split; vm_compute; reflexivity. Qed.

(** The sum of the two middle values overflows. *)
Remark f64_mean_overflow :
  F64.median
    [0x1.e42d130773b76p+1023; 0x1.e42d130773b76p+1023]%float = infinity /\
  F64.median_absolute_deviation
    [0x1.e42d130773b76p+1023; 0x1.e42d130773b76p+1023]%float = infinity.
Proof. split; vm_compute; reflexivity. Qed.

(** The product of the scale factor and a deviation of 7000 is rounded. *)
Remark f64_product_rounding :
  F64.median_absolute_deviation [0; 7000; 14000]%float = 7000%float /\
  exists sd,
    F64.to_Q (F64.estimated_standard_deviation [0; 7000; 14000]%float None)
      = Some sd /\
    ~ (sd == (6677036807539497 # 4503599627370496) * 7000)%Q.
Proof.
  split; [vm_compute; reflexivity|].
  eexists. split; [vm_compute; reflexivity|].
  intros H. vm_compute in H. discriminate H.
Qed.

End Rounding.

(** * The claims *)

(** C1.  On a float64 array of at least one sample and an odd window size
    between 1 and the number of samples, [hampel_filter] returns a sequence
    whose value at every index [i] is the median of the window centred at
    [i] when the distance of [samples[i]] to that median is strictly greater
    than the threshold, [nsigma] times the estimated standard deviation of
    the window, and is [samples[i]] itself otherwise; a distance equal to the
    threshold leaves the sample in place.  Distance, threshold and
    comparison are the float64 values the program computes. *)
Theorem f64_decision_rule
    (samples : list float) (window_size : Z) (nsigma : float) :
  (1 <= length samples)%nat ->
  Z.odd window_size = true ->
  (1 <= window_size <= Z.of_nat (length samples))%Z ->
  exists padded out,
    F64.padded_samples samples window_size = Ok padded /\
    F64.hampel_filter samples window_size nsigma = Ok out /\
    length out = length samples /\
    forall i sample, samples !! i = Some sample ->
      let window := F64.window_at padded window_size i in
      let local_median := F64.median window in
      let threshold :=
        (nsigma * F64.estimated_standard_deviation window None)%float in
      let deviation := abs (sample - local_median)%float in
      (F64.has_nan window = false -> F64.is_median window local_median) /\
      ((threshold <? deviation)%float = true ->
         out !! i = Some local_median) /\
      ((threshold <? deviation)%float = false -> out !! i = Some sample) /\
      ((deviation =? threshold)%float = true -> out !! i = Some sample).
Proof.
  intros Hn Hodd [Hpos _].
  assert (samples <> []) as Hs by (destruct samples; [simpl in Hn; lia|done]).
  pose proof (f64_padded_samples_ok _ _ Hs Hodd Hpos) as Hp. cbv zeta in Hp.
  eexists. eexists. split; [exact Hp|].
  split; [by apply f64_hampel_filter_ok|].
  split; [apply f64_loop_length|].
  intros i sample Hi window local_median threshold deviation.
  assert (i < length samples)%nat as Hlt by (by eapply lookup_lt_Some).
  pose proof (f64_window_at_length _ _ _ i Hs Hodd Hpos Hp Hlt) as Hlen.
  fold window in Hlen.
  pose proof (f64_hampel_filter_lookup _ _ nsigma _ _ _ _ Hs Hodd Hpos Hp
                (f64_hampel_filter_ok _ _ nsigma _ Hs Hodd Hpos Hp) Hi)
    as Hout.
  fold window in Hout. unfold F64.exceeds in Hout.
  fold local_median threshold deviation in Hout.
  split; [|split; [|split]].
  - intros Hnan. apply f64_median_spec; [|done].
    intros Hnil. rewrite Hnil in Hlen. simpl in Hlen. lia.
  - intros Hgt. by rewrite Hgt in Hout.
  - intros Hle. by rewrite Hle in Hout.
  - intros Htie. apply eqb_not_ltb in Htie. by rewrite Htie in Hout.
Qed.

Lemma f64_decision_rule_witness :
  (1 <= length F64.example_samples)%nat /\
  Z.odd 5 = true /\
  (1 <= 5 <= Z.of_nat (length F64.example_samples))%Z /\
  exists padded out,
    F64.padded_samples F64.example_samples 5 = Ok padded /\
    F64.hampel_filter F64.example_samples 5 3 = Ok out /\
    length out = length F64.example_samples /\
    forall i sample, F64.example_samples !! i = Some sample ->
      let window := F64.window_at padded 5 i in
      let local_median := F64.median window in
      let threshold :=
        (3 * F64.estimated_standard_deviation window None)%float in
      let deviation := abs (sample - local_median)%float in
      (F64.has_nan window = false -> F64.is_median window local_median) /\
      ((threshold <? deviation)%float = true ->
         out !! i = Some local_median) /\
      ((threshold <? deviation)%float = false -> out !! i = Some sample) /\
      ((deviation =? threshold)%float = true -> out !! i = Some sample).
Proof.
  assert (1 <= length F64.example_samples)%nat as H1 by (simpl; lia).
  assert (1 <= 5 <= Z.of_nat (length F64.example_samples))%Z as H3
    by (simpl; lia).
  split; [exact H1|]. split; [reflexivity|]. split; [exact H3|].
  exact (f64_decision_rule F64.example_samples 5 3 H1 eq_refl H3).
Defined.

(** C4.  On valid input the returned sequence is as long as the input. *)
Theorem hampel_filter_length
    (samples : list Q) (window_size : Z) (nsigma : Q) :
  (1 <= length samples)%nat ->
  Z.odd window_size = true ->
  (1 <= window_size <= Z.of_nat (length samples))%Z ->
  exists out,
    hampel_filter samples window_size nsigma = Ok out /\
    length out = length samples.
Proof.
  intros Hn%nonempty_of_length Hodd [Hpos _].
  destruct (padded_samples_ok _ _ Hn Hodd Hpos) as [padded Hp].
  eexists. split; [by apply hampel_filter_ok|].
  apply loop_length.
Qed.

Lemma hampel_filter_length_witness :
  (1 <= length example_samples)%nat /\
  Z.odd 5 = true /\
  (1 <= 5 <= Z.of_nat (length example_samples))%Z /\
  exists out,
    hampel_filter example_samples 5 3 = Ok out /\
    length out = length example_samples.
Proof.
  assert (1 <= length example_samples)%nat as H1 by (simpl; lia).
  assert (1 <= 5 <= Z.of_nat (length example_samples))%Z as H3
    by (simpl; lia).
  split; [exact H1|]. split; [reflexivity|]. split; [exact H3|].
  exact (hampel_filter_length example_samples 5 3 H1 eq_refl H3).
Defined.




(** C3.  [hampel_filter] raises the error of its parity check exactly when
    the window size is even.  The check comes first: for an even window size
    the result does not depend on the samples, not even when padding them
    would itself raise, as for the empty sequence.  In particular a window
    size of 10 is always rejected. *)
Theorem even_window_rejected :
  (forall samples window_size nsigma,
     hampel_filter samples window_size nsigma = Raise odd_error <->
     Z.even window_size = true) /\
  (forall samples samples' window_size nsigma nsigma',
     Z.even window_size = true ->
     hampel_filter samples window_size nsigma =
     hampel_filter samples' window_size nsigma') /\
  (forall nsigma,
     (exists e, padded_samples [] 10 = Raise e /\ e <> odd_error) /\
     hampel_filter [] 10 nsigma = Raise odd_error) /\
  (forall samples nsigma,
     hampel_filter samples 10 nsigma = Raise odd_error).
Proof.
  assert (forall samples window_size nsigma,
     hampel_filter samples window_size nsigma = Raise odd_error <->
     Z.even window_size = true) as Hiff.
  { intros samples window_size nsigma. unfold hampel_filter.
    rewrite Zeven_mod. destruct (_ =? 0)%Z; [done|].
    split; [|done]. unfold Pad.median.
    destruct (_ <? 0)%Z; [done|].
    destruct (_ =? 0)%nat.
    - destruct (_ =? 0)%Z; [|done]. simpl. unfold sliding_window_view.
      destruct (_ <? 0)%Z; [done|]. by destruct (_ <? _)%Z.
    - simpl. unfold sliding_window_view.
      destruct (_ <? 0)%Z; [done|]. by destruct (_ <? _)%Z. }
  split; [exact Hiff|]. split; [|split].
  - intros samples samples' window_size nsigma nsigma' Heven.
    rewrite (proj2 (Hiff samples window_size nsigma) Heven).
    by rewrite (proj2 (Hiff samples' window_size nsigma') Heven).
  - intros nsigma. split; [|by apply Hiff].
    eexists. split; [reflexivity|done].
  - intros samples nsigma. by apply Hiff.
Qed.

Lemma even_window_rejected_witness :
  Z.even 10 = true /\
  hampel_filter example_samples 10 3 = Raise odd_error /\
  hampel_filter example_samples 10 3 = hampel_filter [] 10 0.
Proof.
  split; [reflexivity|]. split.
  - exact (proj2 (proj1 even_window_rejected example_samples 10%Z 3%Q)
             eq_refl).
  - exact (proj1 (proj2 even_window_rejected) example_samples [] 10%Z
             3%Q 0%Q eq_refl).
Defined.



(** C6.  [estimated_standard_deviation] returns the float64 product of
    the scale factor and the median absolute deviation; the scale factor is
    the float64 1.4826 when it is not supplied.  The estimate for
    [1, 2, 3, 4, 5] is 1.4826. *)
Theorem f64_estimated_standard_deviation_correct :
  (forall (a : list float) (scale_factor : float), a <> [] ->
     F64.estimated_standard_deviation a (Some scale_factor)
     = (scale_factor * F64.median_absolute_deviation a)%float /\
     F64.estimated_standard_deviation a None
     = (0x1.7b8bac710cb29p+0 * F64.median_absolute_deviation a)%float) /\
  F64.to_Q 0x1.7b8bac710cb29p+0%float
    = Some (6677036807539497 # 4503599627370496)%Q /\
  (Qabs ((6677036807539497 # 4503599627370496) - (14826 # 10000))
     <= 1 # 2 ^ 53)%Q /\
  F64.estimated_standard_deviation [1; 2; 3; 4; 5]%float None
    = 0x1.7b8bac710cb29p+0%float.
Proof.
  split; [|split; [|split]].
  - intros a scale_factor _. done.
  - vm_compute. reflexivity.
  - vm_compute. discriminate.
  - reflexivity.
Qed.

Lemma f64_estimated_standard_deviation_correct_witness :
  [4; 1; 3; 2]%float <> [] /\
  F64.estimated_standard_deviation [4; 1; 3; 2]%float (Some 2%float)
  = (2 * F64.median_absolute_deviation [4; 1; 3; 2])%float /\
  F64.estimated_standard_deviation [4; 1; 3; 2]%float None
  = (0x1.7b8bac710cb29p+0 * F64.median_absolute_deviation [4; 1; 3; 2])%float.
Proof.
  assert ([4; 1; 3; 2]%float <> []) as H by discriminate.
  split; [exact H|].
  exact (proj1 f64_estimated_standard_deviation_correct [4; 1; 3; 2]%float
           2%float H).
Defined.

(** C7.  On [1, 2, 3, 100, 5, 6, 7] with window size 5 and [nsigma = 3]
    the filter replaces the 100 by the median 5 of the window centred at
    index 3, whatever the element type.  Given as a float64 array, the six
    other positions are within their thresholds and keep their sample.
    Given as the array of integers that the literal denotes, positions 1, 2,
    4 and 5 keep their sample, but the pad medians 1.5 and 6.5 are rounded to
    2 and 6, the two end windows have a deviation of 0, and positions 0 and 6
    are replaced by 2 and 6. *)
Theorem outlier_example_by_element_type :
  (exists padded,
     F64.padded_samples F64.example_samples 5 = Ok padded /\
     F64.hampel_filter F64.example_samples 5 3
       = Ok [1; 2; 3; 5; 5; 6; 7]%float /\
     F64.median (F64.window_at padded 5 3) = 5%float /\
     F64.exceeds 3 100 (F64.window_at padded 5 3) = true /\
     Forall (fun i =>
               exists sample,
                 F64.example_samples !! i = Some sample /\
                 F64.exceeds 3 sample (F64.window_at padded 5 i) = false)
       [0; 1; 2; 4; 5; 6]%nat) /\
  (I64.pad_median I64.example_samples 2
     = Ok [2; 2; 1; 2; 3; 100; 5; 6; 7; 6; 6]%Z /\
   I64.hampel_filter I64.example_samples 5 3
     = Ok [2; 2; 3; 5; 5; 6; 6]%Z /\
   F64.median (map I64.to_float [2; 3; 100; 5; 6]%Z) = 5%float /\
   F64.median_absolute_deviation (map I64.to_float [2; 2; 1; 2; 3]%Z)
     = 0%float /\
   F64.median_absolute_deviation (map I64.to_float [5; 6; 7; 6; 6]%Z)
     = 0%float).
Proof.
  split.
  - eexists. split; [vm_compute; reflexivity|].
    split; [vm_compute; reflexivity|].
    split; [vm_compute; reflexivity|].
    split; [vm_compute; reflexivity|].
    repeat (constructor;
      [eexists; split; [reflexivity|vm_compute; reflexivity]|]).
    constructor.
  - repeat split; vm_compute; reflexivity.
Qed.

(** As an array of integers the example does not keep its six other
    positions: the first and the last are replaced. *)
Lemma outlier_example_integer_counterexample :
  I64.hampel_filter I64.example_samples 5 3 = Ok [2; 2; 3; 5; 5; 6; 6]%Z /\
  [2; 2; 3; 5; 5; 6; 6]%Z !! 0%nat <> I64.example_samples !! 0%nat /\
  [2; 2; 3; 5; 5; 6; 6]%Z !! 6%nat <> I64.example_samples !! 6%nat.
Proof.
  split; [vm_compute; reflexivity|]. split; discriminate.
Qed.

(** C8.  With a window size of 1 and a non-negative [nsigma] nothing is
    replaced: every window is the sample alone and the result is the input. *)
Theorem window_size_one_identity (samples : list Q) (nsigma : Q) :
  (1 <= length samples)%nat ->
  (0 <= nsigma)%Q ->
  hampel_filter samples 1 nsigma = Ok samples /\
  exists windows,
    centered_windows samples 1 = Ok windows /\
    forall i sample, samples !! i = Some sample ->
      windows !! i = Some [sample] /\
      replacement nsigma sample [sample] = None.
Proof.
  intros Hn%nonempty_of_length _.
  pose proof (padded_samples_one samples Hn) as Hp.
  split.
  - apply (hampel_filter_clean _ _ _ samples); [done..|].
    intros i sample Hi. rewrite (window_at_one _ _ _ Hi).
    apply replacement_singleton.
  - eexists. split; [by apply centered_windows_ok|].
    intros i sample Hi. split; [|apply replacement_singleton].
    rewrite list_lookup_fmap, lookup_seq_lt by (by eapply lookup_lt_Some).
    simpl. f_equal. by apply window_at_one.
Qed.

Lemma window_size_one_identity_witness :
  (1 <= length example_samples)%nat /\
  (0 <= 3)%Q /\
  hampel_filter example_samples 1 3 = Ok example_samples.
Proof.
  assert (1 <= length example_samples)%nat as H1 by (simpl; lia).
  assert (0 <= 3)%Q as H2 by discriminate.
  split; [exact H1|]. split; [exact H2|].
  exact (proj1 (window_size_one_identity example_samples 3 H1 H2)).
Defined.



(** C10.  On the empty sequence [hampel_filter] returns nothing for any odd
    window size: it raises.  Only for a window size of 1 does the error come
    from the construction of the windows, over an unpadded empty sequence;
    for every other odd window size the padding itself raises, because an
    empty sequence cannot be extended and a negative width is refused, and no
    padded sequence of length [window_size - 1] comes into being. *)
Theorem empty_input_fails (window_size : Z) (nsigma : Q) :
  Z.odd window_size = true ->
  (exists e, hampel_filter [] window_size nsigma = Raise e) /\
  (window_size = 1%Z ->
     padded_samples [] window_size = Ok [] /\
     exists e,
       sliding_window_view [] window_size = Raise e /\
       hampel_filter [] window_size nsigma = Raise e) /\
  (window_size <> 1%Z ->
     exists e,
       padded_samples [] window_size = Raise e /\
       hampel_filter [] window_size nsigma = Raise e).
Proof.
  intros Hodd.
  assert (window_size <> 1%Z ->
     exists e,
       padded_samples [] window_size = Raise e /\
       hampel_filter [] window_size nsigma = Raise e) as Hpad.
  { intros Hne. unfold hampel_filter, padded_samples.
    rewrite (odd_not_even _ Hodd). unfold Pad.median. simpl.
    destruct (Z.ltb_spec (window_size / 2) 0) as [|Hge]; [eauto|].
    destruct (Z.eqb_spec (window_size / 2) 0) as [H0|_]; [|eauto].
    exfalso. pose proof (Z.div_mod window_size 2) as Hdm.
    rewrite Zmod_odd, Hodd, H0 in Hdm. lia. }
  assert (window_size = 1%Z ->
     padded_samples [] window_size = Ok [] /\
     exists e,
       sliding_window_view [] window_size = Raise e /\
       hampel_filter [] window_size nsigma = Raise e) as Hwin.
  { intros ->. split; [reflexivity|]. eexists. split; reflexivity. }
  split; [|by split].
  destruct (decide (window_size = 1%Z)) as [H1|H1].
  - destruct (Hwin H1) as (_ & e & _ & He). eauto.
  - destruct (Hpad H1) as (e & _ & He). eauto.
Qed.

Lemma empty_input_fails_witness :
  Z.odd 3 = true /\
  (exists e, hampel_filter [] 3 3 = Raise e) /\
  (exists e, padded_samples [] 3 = Raise e /\ hampel_filter [] 3 3 = Raise e).
Proof.
  split; [reflexivity|]. split.
  - exact (proj1 (empty_input_fails 3 3 eq_refl)).
  - apply (proj2 (proj2 (empty_input_fails 3 3 eq_refl))). discriminate.
Defined.

(** With a window size of 3 the empty sequence is never padded to length 2:
    the error reported by [hampel_filter] is the one raised by the padding,
    and the construction of the windows is not reached. *)
Lemma empty_input_error_origin_counterexample :
  Z.odd 3 = true /\
  hampel_filter [] 3 3 = Raise (ValueError
    "can't extend empty axis 0 using modes other than 'constant' or 'empty'") /\
  ~ (exists padded e,
       padded_samples [] 3 = Ok padded /\
       Z.of_nat (length padded) = (3 - 1)%Z /\
       sliding_window_view padded 3 = Raise e /\
       hampel_filter [] 3 3 = Raise e).
Proof.
  split; [reflexivity|]. split; [reflexivity|].
  intros (padded & e & Hp & _). discriminate Hp.
Qed.

(** * Further properties of the filter *)

(** ** When the filter returns *)

Section Returns.

Lemma hampel_filter_returns samples window_size nsigma out :
  hampel_filter samples window_size nsigma = Ok out ->
  Z.odd window_size = true /\ (1 <= window_size)%Z /\ samples <> [].
Proof.
  unfold hampel_filter. rewrite <- Zeven_mod, <- Z.negb_odd.
  destruct (Z.odd window_size) eqn:Hodd; [simpl|done].
  pose proof (Z.div_mod window_size 2) as Hdm.
  rewrite Zmod_odd, Hodd in Hdm.
  unfold Pad.median.
  destruct (Z.ltb_spec (window_size / 2) 0) as [|Hge]; [done|].
  destruct samples as [|x samples]; simpl.
  - destruct (Z.eqb_spec (window_size / 2) 0) as [H0|]; [|done].
    simpl. unfold sliding_window_view.
    destruct (Z.ltb_spec window_size 0) as [|_]; [done|].
    destruct (Z.ltb_spec (Z.of_nat (@length Q [])) window_size) as [|Hle];
      [done|]. simpl in Hle. lia.
  - intros _. split; [done|]. split; [lia|done].
Qed.

Lemma returns_padded samples window_size nsigma out :
  hampel_filter samples window_size nsigma = Ok out ->
  exists padded,
    padded_samples samples window_size = Ok padded /\
    out = foldl (hampel_step nsigma) samples
            (enumerate (zip samples
               (window_at padded window_size <$> seq 0 (length samples)))).
Proof.
  intros Hout.
  destruct (hampel_filter_returns _ _ _ _ Hout) as (Hodd & Hpos & Hs).
  destruct (padded_samples_ok _ _ Hs Hodd Hpos) as [padded Hp].
  exists padded. split; [done|].
  rewrite (hampel_filter_ok _ _ _ _ Hs Hodd Hpos Hp) in Hout. congruence.
Qed.

(** The shape of the padded sequence. *)
Lemma padded_shape samples window_size padded :
  samples <> [] -> Z.odd window_size = true -> (1 <= window_size)%Z ->
  padded_samples samples window_size = Ok padded ->
  let half := Z.to_nat (window_size / 2) in
  exists left right,
    length left = half /\ length right = half /\
    padded = left ++ samples ++ right /\
    (forall v, v ∈ left -> Np.median (take half samples) = Some v) /\
    (forall v, v ∈ right ->
       Np.median (drop (length samples - half) samples) = Some v).
Proof.
  intros Hs Hodd Hpos Hp half.
  destruct (odd_half window_size Hodd Hpos) as [Hh Hw].
  unfold padded_samples in Hp. rewrite pad_median_nonempty in Hp by done.
  injection Hp as <-. fold half.
  assert (half = 0%nat \/
          is_Some (Np.median (take half samples)) /\
          is_Some (Np.median (drop (length samples - half) samples)))
    as Hstat.
  { destruct (decide (half = 0%nat)) as [|Hne]; [by left|right].
    by apply pad_stats. }
  eexists. eexists. split; [|split; [|split; [reflexivity|]]].
  - apply block_length. destruct Hstat as [|[? _]]; [by left|by right].
  - apply block_length. destruct Hstat as [|[_ ?]]; [by left|by right].
  - split; intros v; unfold Pad.block.
    + destruct (Np.median (take half samples)); [|by intros ?%elem_of_nil].
      by intros [-> _]%elem_of_replicate.
    + destruct (Np.median (drop _ samples)); [|by intros ?%elem_of_nil].
      by intros [-> _]%elem_of_replicate.
Qed.

End Returns.

(** X1.  [hampel_filter] returns a sequence exactly when the window size is
    odd and at least 1 and there is at least one sample; in every other case
    it raises. *)
Theorem hampel_filter_returns_iff
    (samples : list Q) (window_size : Z) (nsigma : Q) :
  (exists out, hampel_filter samples window_size nsigma = Ok out) <->
  Z.odd window_size = true /\ (1 <= window_size)%Z /\ samples <> [].
Proof.
  split.
  - intros [out Hout]. by eapply hampel_filter_returns.
  - intros (Hodd & Hpos & Hs).
    destruct (padded_samples_ok _ _ Hs Hodd Hpos) as [padded Hp].
    eexists. by apply hampel_filter_ok.
Qed.

Lemma hampel_filter_returns_iff_witness :
  (Z.odd 5 = true /\ (1 <= 5)%Z /\ example_samples <> []) /\
  exists out, hampel_filter example_samples 5 3 = Ok out.
Proof.
  assert (Z.odd 5 = true /\ (1 <= 5)%Z /\ example_samples <> []) as H.
  { split; [reflexivity|]. split; [lia|discriminate]. }
  split; [exact H|].
  exact (proj2 (hampel_filter_returns_iff example_samples 5 3) H).
Defined.

(** X2.  Whenever [hampel_filter] returns, the result is as long as the
    input, also for a window that is larger than the signal. *)
Theorem hampel_filter_returns_same_length
    (samples : list Q) (window_size : Z) (nsigma : Q) (out : list Q) :
  hampel_filter samples window_size nsigma = Ok out ->
  length out = length samples.
Proof.
  intros (padded & _ & ->)%returns_padded. apply loop_length.
Qed.

Lemma hampel_filter_returns_same_length_witness :
  hampel_filter [1; 5; 2]%Q 7 (1 # 10) = Ok [2; 2; 2]%Q /\
  length [2; 2; 2]%Q = length [1; 5; 2]%Q.
Proof.
  assert (hampel_filter [1; 5; 2]%Q 7 (1 # 10) = Ok [2; 2; 2]%Q) as H
    by reflexivity.
  split; [exact H|].
  exact (hampel_filter_returns_same_length [1; 5; 2]%Q 7 (1 # 10) _ H).
Defined.



(** ** The values of the result *)

Section Values.

Lemma replacement_Some nsigma sample window m :
  replacement nsigma sample window = Some m ->
  Np.median window = Some m /\
  exists sd,
    estimated_standard_deviation window None = Some sd /\
    (nsigma * sd < Qabs (sample - m))%Q.
Proof.
  unfold replacement.
  destruct (Np.median window) as [m'|]; [|done].
  destruct (estimated_standard_deviation window None) as [sd|]; [|done].
  destruct (Np.gt _ _) eqn:Hgt; [|done].
  intros [= ->]. split; [done|]. exists sd. split; [done|].
  by apply gt_spec.
Qed.



Lemma median_between lo hi a m :
  Forall (fun x => lo <= x <= hi)%Q a ->
  Np.median a = Some m -> (lo <= m <= hi)%Q.
Proof.
  intros Ha. unfold Np.median.
  assert (forall k v, Np.sort a !! k = Some v -> (lo <= v <= hi)%Q) as Hk.
  { intros k v Hv%sort_lookup_elem. rewrite Forall_forall in Ha. auto. }
  destruct (_ =? 0)%nat; [done|].
  destruct (_ =? 1)%nat; [by apply Hk|].
  destruct (Np.sort a !! _) as [l|] eqn:Hl; [|done].
  destruct (Np.sort a !! (_ / 2)%nat) as [h|] eqn:Hh; [|done].
  intros [= <-]. apply Hk in Hl, Hh.
  assert ((l + h) / 2 == (l + h) * (1 # 2))%Q as -> by reflexivity.
  lra.
Qed.



Lemma window_at_Forall (P : Q -> Prop) padded window_size i :
  Forall P padded -> Forall P (window_at padded window_size i).
Proof. intros H. unfold window_at. by apply Forall_take, Forall_drop. Qed.

End Values.





(** X6.  The result differs from the input only where the loop stored a
    value: outside the replaced indices it agrees with the input, with no
    replaced index it is the input, and for a non-negative [nsigma] every
    replaced index holds a number different from the sample. *)
Theorem changes_only_where_replaced
    (samples : list Q) (window_size : Z) (nsigma : Q) (out : list Q) :
  hampel_filter samples window_size nsigma = Ok out ->
  exists replaced,
    replaced_indices samples window_size nsigma = Ok replaced /\
    (forall i, i ∉ replaced -> out !! i = samples !! i) /\
    (replaced = [] -> out = samples) /\
    ((0 <= nsigma)%Q ->
     forall i, i ∈ replaced ->
       exists sample v,
         samples !! i = Some sample /\ out !! i = Some v /\
         ~ (sample == v)%Q).
Proof.
  intros Hout.
  destruct (hampel_filter_returns _ _ _ _ Hout) as (Hodd & Hpos & Hs).
  destruct (padded_samples_ok _ _ Hs Hodd Hpos) as [padded Hp].
  pose proof (replaced_indices_ok _ _ nsigma _ Hs Hodd Hpos Hp) as Hr.
  set (replaced := map fst _) in Hr.
  exists replaced. split; [exact Hr|].
  assert (forall i, i ∉ replaced -> out !! i = samples !! i) as Hkeep.
  { intros i Hi. destruct (samples !! i) as [sample|] eqn:Hsi.
    - rewrite (hampel_filter_lookup _ _ _ _ _ _ _ Hs Hodd Hpos Hp Hout Hsi).
      destruct (replacement nsigma sample (window_at padded window_size i))
        as [m|] eqn:Hm; [|done].
      exfalso. apply Hi.
      apply (replaced_indices_elem _ _ _ _ _ _ Hs Hodd Hpos Hp Hr).
      exists sample. split; [done|]. by rewrite Hm.
    - apply lookup_ge_None.
      destruct (returns_padded _ _ _ _ Hout) as (padded' & _ & ->).
      rewrite loop_length. by apply lookup_ge_None. }
  split; [exact Hkeep|]. split.
  - intros Hnil. apply list_eq. intros i. apply Hkeep.
    rewrite Hnil. apply not_elem_of_nil.
  - intros Hns i Hi.
    apply (replaced_indices_elem _ _ _ _ _ _ Hs Hodd Hpos Hp Hr) in Hi
      as (sample & Hsi & [m Hm]).
    exists sample, m. split; [done|]. split.
    + rewrite (hampel_filter_lookup _ _ _ _ _ _ _ Hs Hodd Hpos Hp Hout Hsi).
      by rewrite Hm.
    + apply replacement_Some in Hm as (_ & sd & Hsd & Hlt).
      pose proof (esd_default_nonneg _ _ Hsd) as Hsd0.
      intros Heq.
      assert (Qabs (sample - m) == 0)%Q as Habs.
      { assert (sample - m == 0)%Q as -> by (rewrite Heq; ring).
        reflexivity. }
      rewrite Habs in Hlt.
      pose proof (Qmult_le_0_compat _ _ Hns Hsd0) as Hthr.
      by apply (Qlt_not_le _ _ Hlt).
Qed.

Lemma changes_only_where_replaced_witness :
  hampel_filter example_samples 5 3 = Ok [1; 2; 3; 5; 5; 6; 7]%Q /\
  exists replaced,
    replaced_indices example_samples 5 3 = Ok replaced /\
    (forall i, i ∉ replaced ->
       [1; 2; 3; 5; 5; 6; 7]%Q !! i = example_samples !! i) /\
    (replaced = [] -> [1; 2; 3; 5; 5; 6; 7]%Q = example_samples) /\
    ((0 <= 3)%Q ->
     forall i, i ∈ replaced ->
       exists sample v,
         example_samples !! i = Some sample /\
         [1; 2; 3; 5; 5; 6; 7]%Q !! i = Some v /\
         ~ (sample == v)%Q).
Proof.
  assert (hampel_filter example_samples 5 3 = Ok [1; 2; 3; 5; 5; 6; 7]%Q)
    as H by reflexivity.
  split; [exact H|].
  exact (changes_only_where_replaced example_samples 5 3 _ H).
Defined.

(** X7.  The window paired with sample [i] has that sample in its middle
    position, and away from the two ends, where no padding is involved, it is
    the slice [samples[i - half : i + half + 1]] of the input. *)
Theorem window_centre (samples : list Q) (window_size : Z) :
  (1 <= length samples)%nat ->
  Z.odd window_size = true ->
  (1 <= window_size)%Z ->
  let half := Z.to_nat (window_size / 2) in
  exists padded,
    padded_samples samples window_size = Ok padded /\
    (forall i sample, samples !! i = Some sample ->
       window_at padded window_size i !! half = Some sample) /\
    (forall i, (half <= i)%nat -> (i + half < length samples)%nat ->
       window_at padded window_size i
       = take (Z.to_nat window_size) (drop (i - half) samples)).
Proof.
  intros Hs%nonempty_of_length Hodd Hpos half.
  destruct (odd_half window_size Hodd Hpos) as [_ Hw]. fold half in Hw.
  destruct (padded_samples_ok _ _ Hs Hodd Hpos) as [padded Hp].
  exists padded. split; [done|].
  destruct (padded_shape _ _ _ Hs Hodd Hpos Hp)
    as (left & right & Hl & _ & -> & _). fold half in Hl.
  split.
  - intros i sample Hi. unfold window_at.
    rewrite lookup_take_lt by lia. rewrite lookup_drop.
    rewrite lookup_app_r by lia.
    replace (i + half - length left)%nat with i by lia.
    by apply lookup_app_l_Some.
  - intros i Hlo Hhi. unfold window_at.
    rewrite drop_app_ge by lia. rewrite Hl.
    rewrite drop_app_le by lia.
    apply take_app_le. rewrite length_drop. lia.
Qed.

Lemma window_centre_witness :
  (1 <= length example_samples)%nat /\
  Z.odd 5 = true /\
  (1 <= 5)%Z /\
  exists padded,
    padded_samples example_samples 5 = Ok padded /\
    (forall i sample, example_samples !! i = Some sample ->
       window_at padded 5 i !! 2%nat = Some sample) /\
    (forall i, (2 <= i)%nat -> (i + 2 < length example_samples)%nat ->
       window_at padded 5 i
       = take (Z.to_nat 5) (drop (i - 2) example_samples)).
Proof.
  assert (1 <= length example_samples)%nat as H1 by (simpl; lia).
  assert (1 <= 5)%Z as H3 by lia.
  split; [exact H1|]. split; [reflexivity|]. split; [exact H3|].
  exact (window_centre example_samples 5 H1 eq_refl H3).
Defined.

(** ** Windows without spread *)

Section Flat.

Lemma padded_between lo hi samples window_size padded :
  samples <> [] -> Z.odd window_size = true -> (1 <= window_size)%Z ->
  padded_samples samples window_size = Ok padded ->
  Forall (fun x => lo <= x <= hi)%Q samples ->
  Forall (fun x => lo <= x <= hi)%Q padded.
Proof.
  intros Hs Hodd Hpos Hp Hrange.
  destruct (padded_shape _ _ _ Hs Hodd Hpos Hp)
    as (left & right & _ & _ & -> & Hleft & Hright).
  apply Forall_app. split; [|apply Forall_app; split; [done|]].
  - apply Forall_forall. intros v Hv%Hleft.
    eapply median_between; [|exact Hv]. by apply Forall_take.
  - apply Forall_forall. intros v Hv%Hright.
    eapply median_between; [|exact Hv]. by apply Forall_drop.
Qed.

Lemma abs_zero x y : (x == y)%Q -> (Qabs (x - y) == 0)%Q.
Proof.
  intros H. assert (x - y == 0)%Q as -> by (rewrite H; ring). reflexivity.
Qed.

Lemma abs_pos x y : ~ (x == y)%Q -> (0 < Qabs (x - y))%Q.
Proof.
  intros Hne. destruct (Qlt_le_dec 0 (Qabs (x - y))) as [|Hle]; [done|].
  exfalso. apply Hne. apply Qabs_Qle_condition in Hle. lra.
Qed.

(** With a deviation of zero the threshold is zero for every [nsigma]. *)
Lemma replacement_zero_mad nsigma sample window m mad :
  Np.median window = Some m ->
  median_absolute_deviation window = Some mad ->
  (mad == 0)%Q ->
  ((sample == m)%Q -> replacement nsigma sample window = None) /\
  (~ (sample == m)%Q -> replacement nsigma sample window = Some m).
Proof.
  intros Hm Hmad H0.
  rewrite (replacement_unfold nsigma sample window m
             (default_scale_factor * mad)%Q Hm)
    by (unfold estimated_standard_deviation; by rewrite Hmad).
  assert (nsigma * (default_scale_factor * mad) == 0)%Q as Hthr.
  { rewrite H0. ring. }
  split.
  - intros Heq.
    assert (Np.gt (Qabs (sample - m))
              (nsigma * (default_scale_factor * mad)) = false) as ->; [|done].
    apply gt_false. rewrite Hthr, (abs_zero _ _ Heq). apply Qle_refl.
  - intros Hne.
    assert (Np.gt (Qabs (sample - m))
              (nsigma * (default_scale_factor * mad)) = true) as ->; [|done].
    apply gt_spec. rewrite Hthr. by apply abs_pos.
Qed.

Lemma flat_window_keeps nsigma sample window c :
  window <> [] ->
  Forall (fun x => c <= x <= c)%Q window -> (c <= sample <= c)%Q ->
  replacement nsigma sample window = None.
Proof.
  intros Hw Hflat Hsample.
  destruct (median_is_Some _ Hw) as [m Hm].
  destruct (mad_is_Some _ Hw) as [mad Hmad].
  pose proof (median_between _ _ _ _ Hflat Hm) as Hmc.
  assert (mad == 0)%Q as H0.
  { pose proof Hmad as Hmad'. unfold median_absolute_deviation in Hmad'.
    rewrite Hm in Hmad'.
    assert (0 <= mad <= 0)%Q as Hb; [|lra].
    eapply median_between; [|exact Hmad'].
    unfold Np.abs_dev. apply Forall_forall.
    intros y (x & -> & Hx)%list_elem_of_fmap.
    rewrite Forall_forall in Hflat. specialize (Hflat x Hx).
    split; [apply Qabs_nonneg|]. apply Qabs_Qle_condition. lra. }
  apply (replacement_zero_mad nsigma sample window m mad Hm Hmad H0). lra.
Qed.

End Flat.

(** X8.  A signal whose samples are all the same number comes back
    unchanged, for every odd window size and every [nsigma]. *)
Theorem constant_signal_unchanged
    (samples : list Q) (window_size : Z) (nsigma c : Q) :
  (1 <= length samples)%nat ->
  Z.odd window_size = true ->
  (1 <= window_size)%Z ->
  Forall (fun x => x == c)%Q samples ->
  hampel_filter samples window_size nsigma = Ok samples.
Proof.
  intros Hs%nonempty_of_length Hodd Hpos Hconst.
  destruct (padded_samples_ok _ _ Hs Hodd Hpos) as [padded Hp].
  assert (Forall (fun x => c <= x <= c)%Q samples) as Hrange.
  { eapply Forall_impl; [exact Hconst|]. intros x Hx. simpl in Hx. lra. }
  pose proof (padded_between _ _ _ _ _ Hs Hodd Hpos Hp Hrange) as Hpadded.
  apply (hampel_filter_clean _ _ _ padded); [done..|].
  intros i sample Hi. apply (flat_window_keeps _ _ _ c).
  - eapply window_at_nonempty; [done..|]. by eapply lookup_lt_Some.
  - by apply window_at_Forall.
  - rewrite Forall_forall in Hrange. apply Hrange.
    by eapply list_elem_of_lookup_2.
Qed.

Lemma constant_signal_unchanged_witness :
  (1 <= length [4; 8 # 2; 4; 4]%Q)%nat /\
  Z.odd 5 = true /\
  (1 <= 5)%Z /\
  Forall (fun x => x == 4)%Q [4; 8 # 2; 4; 4]%Q /\
  hampel_filter [4; 8 # 2; 4; 4]%Q 5 (-1) = Ok [4; 8 # 2; 4; 4]%Q.
Proof.
  assert (1 <= length [4; 8 # 2; 4; 4]%Q)%nat as H1 by (simpl; lia).
  assert (1 <= 5)%Z as H3 by lia.
  assert (Forall (fun x => x == 4)%Q [4; 8 # 2; 4; 4]%Q) as H4
    by (repeat constructor).
  split; [exact H1|]. split; [reflexivity|]. split; [exact H3|].
  split; [exact H4|].
  exact (constant_signal_unchanged [4; 8 # 2; 4; 4]%Q 5 (-1) 4 H1 eq_refl
           H3 H4).
Defined.



(** * Further properties of the two statistics *)



(** ** The statistics as functions of the values *)

Section Invariance.

Lemma order_statistic_perm a b k v :
  a ≡ₚ b -> order_statistic a k v -> order_statistic b k v.
Proof.
  intros Hab (s & Hs & Hsorted & Hk). exists s.
  split; [by rewrite Hs|done].
Qed.

Lemma is_median_perm a b m : a ≡ₚ b -> is_median a m -> is_median b m.
Proof.
  intros Hab. unfold is_median. rewrite <- (Permutation_length Hab).
  destruct (Nat.odd (length a)).
  - intros (v & Hv & Hm). exists v. split; [|done].
    by eapply order_statistic_perm.
  - intros (lo & hi & Hlo & Hhi & Hm). exists lo, hi.
    split; [by eapply order_statistic_perm|].
    split; [by eapply order_statistic_perm|done].
Qed.

Lemma median_perm a b m :
  a ≡ₚ b -> Np.median a = Some m ->
  exists m', Np.median b = Some m' /\ (m == m')%Q.
Proof.
  intros Hab Hm.
  assert (b <> []) as Hb.
  { intros ->. apply Permutation_nil_r in Hab. by subst. }
  destruct (median_is_Some b Hb) as [m' Hm']. exists m'. split; [done|].
  eapply (is_median_unique b).
  - eapply is_median_perm; [exact Hab|]. by apply median_spec.
  - by apply median_spec.
Qed.

Lemma insert_Qeq x x' l l' :
  (x == x')%Q -> Forall2 Qeq l l' ->
  Forall2 Qeq (Np.insert x l) (Np.insert x' l').
Proof.
  intros Hx. induction 1 as [|y y' l l' Hy Hl IH]; simpl.
  - by constructor.
  - assert (Qle_bool x y = Qle_bool x' y') as -> by (by apply Qleb_comp).
    destruct (Qle_bool x' y'); repeat constructor; done.
Qed.

Lemma sort_Qeq l l' : Forall2 Qeq l l' -> Forall2 Qeq (Np.sort l) (Np.sort l').
Proof.
  induction 1 as [|x x' l l' Hx Hl IH]; simpl; [constructor|].
  by apply insert_Qeq.
Qed.

(** Equal numbers, in whatever representation, have equal medians. *)
Lemma median_Qeq a b m :
  Forall2 Qeq a b -> Np.median a = Some m ->
  exists m', Np.median b = Some m' /\ (m == m')%Q.
Proof.
  intros Hab. pose proof (sort_Qeq _ _ Hab) as Hs.
  unfold Np.median. rewrite !sort_length, <- (Forall2_length _ _ _ Hab).
  destruct (_ =? 0)%nat; [done|].
  destruct (_ =? 1)%nat.
  - intros Hm. destruct (Forall2_lookup_l _ _ _ _ _ Hs Hm) as (m' & Hm' & ?).
    eauto.
  - destruct (Np.sort a !! _) as [lo|] eqn:Hlo; [|done].
    destruct (Np.sort a !! (_ / 2)%nat) as [hi|] eqn:Hhi; [|done].
    intros [= <-].
    destruct (Forall2_lookup_l _ _ _ _ _ Hs Hlo) as (lo' & -> & Hlo').
    destruct (Forall2_lookup_l _ _ _ _ _ Hs Hhi) as (hi' & -> & Hhi').
    eexists. split; [done|]. by rewrite Hlo', Hhi'.
Qed.

Lemma abs_dev_Qeq m m' a :
  (m == m')%Q -> Forall2 Qeq (Np.abs_dev m a) (Np.abs_dev m' a).
Proof.
  intros Hm. unfold Np.abs_dev.
  induction a as [|x a IH]; [constructor|].
  cbn [map]. constructor; [|exact IH].
  rewrite Hm. reflexivity.
Qed.

End Invariance.

(** X12.  [median_absolute_deviation] does not depend on the order of the
    values: two arrangements of the same values have the same deviation. *)
Theorem median_absolute_deviation_perm (a b : list Q) (mad : Q) :
  a ≡ₚ b ->
  median_absolute_deviation a = Some mad ->
  exists mad', median_absolute_deviation b = Some mad' /\ (mad == mad')%Q.
Proof.
  intros Hab. unfold median_absolute_deviation.
  destruct (Np.median a) as [m|] eqn:Hm; [|done]. intros Hmad.
  destruct (median_perm _ _ _ Hab Hm) as (m' & -> & Hmm').
  assert (Np.abs_dev m a ≡ₚ Np.abs_dev m b) as Hperm
    by (by apply Permutation_map).
  destruct (median_perm _ _ _ Hperm Hmad) as (d & Hd & Hmd).
  destruct (median_Qeq _ _ _ (abs_dev_Qeq m m' b Hmm') Hd)
    as (mad' & Hmad' & Hdm).
  exists mad'. split; [done|]. by rewrite Hmd.
Qed.

Lemma median_absolute_deviation_perm_witness :
  [7; 1; 4; 2]%Q ≡ₚ [1; 2; 7; 4]%Q /\
  median_absolute_deviation [7; 1; 4; 2]%Q = Some (12 # 8)%Q /\
  exists mad',
    median_absolute_deviation [1; 2; 7; 4]%Q = Some mad' /\
    (12 # 8 == mad')%Q.
Proof.
  assert ([7; 1; 4; 2]%Q ≡ₚ [1; 2; 7; 4]%Q) as Hp.
  { apply (Permutation_trans (l' := [1; 7; 4; 2]%Q)).
    - apply perm_swap.
    - apply perm_skip.
      apply (Permutation_trans (l' := [7; 2; 4]%Q)).
      + apply perm_skip, perm_swap.
      + apply perm_swap. }
  assert (median_absolute_deviation [7; 1; 4; 2]%Q = Some (12 # 8)%Q) as H.
  { vm_compute. reflexivity. }
  split; [exact Hp|]. split; [exact H|].
  exact (median_absolute_deviation_perm _ _ _ Hp H).
Defined.

(** * Locality of the filter *)

Section Locality.

Lemma interior_window samples window_size padded i :
  samples <> [] -> Z.odd window_size = true -> (1 <= window_size)%Z ->
  padded_samples samples window_size = Ok padded ->
  (Z.to_nat (window_size / 2) <= i)%nat ->
  (i + Z.to_nat (window_size / 2) < length samples)%nat ->
  window_at padded window_size i
  = take (Z.to_nat window_size)
      (drop (i - Z.to_nat (window_size / 2)) samples).
Proof.
  intros Hs Hodd Hpos Hp Hlo Hhi.
  destruct (odd_half window_size Hodd Hpos) as [_ Hw].
  destruct (padded_shape _ _ _ Hs Hodd Hpos Hp)
    as (left & right & Hl & _ & -> & _).
  unfold window_at. rewrite drop_app_ge by lia. rewrite Hl.
  rewrite drop_app_le by lia.
  apply take_app_le. rewrite length_drop. lia.
Qed.

Lemma slice_centre (samples : list Q) window_size i :
  Z.odd window_size = true -> (1 <= window_size)%Z ->
  (Z.to_nat (window_size / 2) <= i)%nat ->
  take (Z.to_nat window_size)
    (drop (i - Z.to_nat (window_size / 2)) samples)
    !! Z.to_nat (window_size / 2)
  = samples !! i.
Proof.
  intros Hodd Hpos Hlo.
  destruct (odd_half window_size Hodd Hpos) as [_ Hw].
  rewrite lookup_take_lt by lia. rewrite lookup_drop. f_equal. lia.
Qed.

End Locality.

(** X14.  Away from the two ends the result at index [i] is decided by the
    samples [i - half .. i + half] alone: two signals that agree on that
    slice get the same value at [i], whatever they hold elsewhere. *)
Theorem hampel_filter_local
    (samples1 samples2 : list Q) (window_size : Z) (nsigma : Q)
    (out1 out2 : list Q) (i : nat) :
  hampel_filter samples1 window_size nsigma = Ok out1 ->
  hampel_filter samples2 window_size nsigma = Ok out2 ->
  let half := Z.to_nat (window_size / 2) in
  (half <= i)%nat ->
  (i + half < length samples1)%nat ->
  (i + half < length samples2)%nat ->
  take (Z.to_nat window_size) (drop (i - half) samples1)
  = take (Z.to_nat window_size) (drop (i - half) samples2) ->
  out1 !! i = out2 !! i.
Proof.
  intros Hout1 Hout2 half Hlo Hhi1 Hhi2 Hslice.
  destruct (hampel_filter_returns _ _ _ _ Hout1) as (Hodd & Hpos & Hs1).
  destruct (hampel_filter_returns _ _ _ _ Hout2) as (_ & _ & Hs2).
  destruct (padded_samples_ok _ _ Hs1 Hodd Hpos) as [padded1 Hp1].
  destruct (padded_samples_ok _ _ Hs2 Hodd Hpos) as [padded2 Hp2].
  pose proof (slice_centre samples1 window_size i Hodd Hpos Hlo) as Hc1.
  pose proof (slice_centre samples2 window_size i Hodd Hpos Hlo) as Hc2.
  fold half in Hc1, Hc2. rewrite Hslice, Hc2 in Hc1.
  destruct (lookup_lt_is_Some_2 samples1 i) as [sample Hi1]; [lia|].
  assert (samples2 !! i = Some sample) as Hi2 by congruence.
  rewrite (hampel_filter_lookup _ _ _ _ _ _ _ Hs1 Hodd Hpos Hp1 Hout1 Hi1).
  rewrite (hampel_filter_lookup _ _ _ _ _ _ _ Hs2 Hodd Hpos Hp2 Hout2 Hi2).
  rewrite (interior_window _ _ _ _ Hs1 Hodd Hpos Hp1 Hlo Hhi1).
  rewrite (interior_window _ _ _ _ Hs2 Hodd Hpos Hp2 Hlo Hhi2).
  fold half. by rewrite Hslice.
Qed.

Lemma hampel_filter_local_witness :
  hampel_filter example_samples 3 3 = Ok [1; 2; 3; 5; 5; 6; 7]%Q /\
  hampel_filter [40; 50; 3; 100; 5; 60]%Q 3 3
    = Ok [40; 50; 3; 5; 5; 60]%Q /\
  (1 <= 3)%nat /\
  (3 + 1 < length example_samples)%nat /\
  (3 + 1 < length [40; 50; 3; 100; 5; 60]%Q)%nat /\
  take (Z.to_nat 3) (drop (3 - 1) example_samples)
  = take (Z.to_nat 3) (drop (3 - 1) [40; 50; 3; 100; 5; 60]%Q) /\
  [1; 2; 3; 5; 5; 6; 7]%Q !! 3%nat = [40; 50; 3; 5; 5; 60]%Q !! 3%nat.
Proof.
  assert (hampel_filter example_samples 3 3 = Ok [1; 2; 3; 5; 5; 6; 7]%Q)
    as H1 by reflexivity.
  assert (hampel_filter [40; 50; 3; 100; 5; 60]%Q 3 3
          = Ok [40; 50; 3; 5; 5; 60]%Q) as H2 by reflexivity.
  assert (1 <= 3)%nat as H3 by lia.
  assert (3 + 1 < length example_samples)%nat as H4 by (simpl; lia).
  assert (3 + 1 < length [40; 50; 3; 100; 5; 60]%Q)%nat as H5
    by (simpl; lia).
  assert (take (Z.to_nat 3) (drop (3 - 1) example_samples)
          = take (Z.to_nat 3) (drop (3 - 1) [40; 50; 3; 100; 5; 60]%Q))
    as H6 by reflexivity.
  split; [exact H1|]. split; [exact H2|]. split; [exact H3|].
  split; [exact H4|]. split; [exact H5|]. split; [exact H6|].
  exact (hampel_filter_local _ _ 3 3 _ _ 3%nat H1 H2 H3 H4 H5 H6).
Defined.
